(** * chatgpt-your-files: the ingestion and embedding pipeline

    A shallow embedding of
      - [supabase/functions/embed/index.ts]   (the embedding endpoint),
      - the processing endpoint               (the chunking endpoint),
      - the SQL migration                     (schema and storage trigger),
    and the properties of the specification that concern them. *)

From Stdlib Require Import NArith ZArith List Ascii String Lia Sorted.
From stdpp Require Import gmap strings list fin_maps.

Local Open Scope nat_scope.

(** ** JavaScript strings

    A JavaScript string is a sequence of UTF-16 code units.  None of the
    regular expressions of the handler carries the [u] flag, so classes and
    negated classes range over single code units. *)

Module Js.

Definition code_unit := N.
Definition jsstring := list code_unit.

Definition LF : code_unit := 10%N.
Definition CR : code_unit := 13%N.
Definition SP : code_unit := 32%N.

(** ASCII literals of the development, as code units. *)
Definition of_ascii (s : string) : jsstring :=
  map N_of_ascii (list_ascii_of_string s).

(** The class [\s] (WhiteSpace and LineTerminator of ECMAScript); it is also
    the set that [String.prototype.trim] strips. *)
Definition is_space (c : code_unit) : bool :=
  ((9 <=? c) && (c <=? 13) || (c =? 32) || (c =? 160) || (c =? 5760)
   || (8192 <=? c) && (c <=? 8202) || (c =? 8232) || (c =? 8233)
   || (c =? 8239) || (c =? 8287) || (c =? 12288) || (c =? 65279))%N.

(** A pattern anchored at the head of the remaining input: [Some (n, rep)]
    when it matches the next [n] code units, to be replaced by [rep]. *)
Definition matcher := jsstring -> option (nat * jsstring).

(** [s.replace(/re/g, rep)]: scan from the left; at a match emit the
    replacement and resume after the match ([skip] counts the code units of
    the current match still to be passed over), otherwise copy one code unit.
    An empty match emits its replacement and copies one code unit. *)
Fixpoint replace_all (m : matcher) (skip : nat) (s : jsstring) : jsstring :=
  match s with
  | [] => match skip, m [] with
          | 0, Some (_, rep) => rep
          | _, _ => []
          end
  | c :: t =>
      match skip with
      | S k => replace_all m k t
      | 0 => match m s with
             | Some (S n, rep) => rep ++ replace_all m n t
             | Some (0, rep) => rep ++ c :: replace_all m 0 t
             | None => c :: replace_all m 0 t
             end
      end
  end.

Definition replace (m : matcher) (s : jsstring) : jsstring := replace_all m 0 s.

(** A pattern that consumes at least one code unit and never more than the
    input holds; all patterns of the handler are of this kind. *)
Definition bounded (m : matcher) : Prop :=
  forall s n rep, m s = Some (n, rep) -> 1 <= n <= length s.

(** Length of the longest prefix whose code units all satisfy [p]: what a
    greedy [[...]*] consumes. *)
Fixpoint run_length (p : code_unit -> bool) (s : jsstring) : nat :=
  match s with
  | c :: t => if p c then S (run_length p t) else 0
  | [] => 0
  end.

Fixpoint drop_while (p : code_unit -> bool) (s : jsstring) : jsstring :=
  match s with
  | c :: t => if p c then drop_while p t else s
  | [] => []
  end.

(** [s.trim()] *)
Definition trim (s : jsstring) : jsstring :=
  rev (drop_while is_space (rev (drop_while is_space s))).

(** [s.substring(0, n)] for [0 <= n]. *)
Definition substring0 (n : nat) (s : jsstring) : jsstring := firstn n s.

End Js.

(** ** The content sanitizer (embed/index.ts, lines 84-100) *)

Module Sanitizer.
Import Js.

Definition neq (d : code_unit) (c : code_unit) : bool := negb (c =? d)%N.

(** [/\r\n/g] *)
Definition re_crlf : matcher := fun s =>
  match s with
  | c :: d :: _ => if ((c =? CR) && (d =? LF))%N then Some (2, [LF]) else None
  | _ => None
  end.

(** [/\r/g] *)
Definition re_cr : matcher := fun s =>
  match s with
  | c :: _ => if (c =? CR)%N then Some (1, [LF]) else None
  | [] => None
  end.

(** The markdown link pattern of line 87: an opening square bracket, a
    captured greedy run of code units other than the closing square bracket,
    that closing bracket, an opening parenthesis, a greedy run of code units
    other than the closing parenthesis, and that closing parenthesis; the
    match is replaced by the captured run (group 1).  Both starred classes
    exclude the code unit that has to follow them, so the greedy run is the
    only way to match and no backtracking can succeed. *)
Definition re_link : matcher := fun s =>
  match s with
  | c :: t =>
      if (c =? 91)%N then
        let n := run_length (neq 93%N) t in
        match skipn n t with
        | _ :: p :: r =>
            if (p =? 40)%N then
              let k := run_length (neq 41%N) r in
              match skipn k r with
              | _ :: _ => Some (n + k + 4, firstn n t)
              | [] => None
              end
            else None
        | _ => None
        end
      else None
  | [] => None
  end.

(** The patterns of lines 88 and 89: an opening delimiter, a greedy run of
    code units other than the closing delimiter, and the closing delimiter
    (square brackets, then parentheses); replaced by the empty string. *)
Definition re_delimited (open close : code_unit) : matcher := fun s =>
  match s with
  | c :: t =>
      if (c =? open)%N then
        let n := run_length (neq close) t in
        match skipn n t with
        | _ :: _ => Some (n + 2, [])
        | [] => None
        end
      else None
  | [] => None
  end.

(** The class [[\x20-\x7E\n]]. *)
Definition keepable (c : code_unit) : bool :=
  ((32 <=? c) && (c <=? 126) || (c =? LF))%N.

(** [/[^\x20-\x7E\n]/g] *)
Definition re_not_keepable : matcher := fun s =>
  match s with
  | c :: _ => if keepable c then None else Some (1, [])
  | [] => None
  end.

(** The class [[#*_`~]]. *)
Definition is_format_char (c : code_unit) : bool :=
  ((c =? 35) || (c =? 42) || (c =? 95) || (c =? 96) || (c =? 126))%N.

(** [/[#*_`~]/g] *)
Definition re_format_char : matcher := fun s =>
  match s with
  | c :: _ => if is_format_char c then Some (1, []) else None
  | [] => None
  end.

(** [/\s+/g] and [/\n+/g]: a greedy non-empty run of a class, replaced by one
    space. *)
Definition re_run (p : code_unit -> bool) : matcher := fun s =>
  match s with
  | c :: t => if p c then Some (S (run_length p t), [SP]) else None
  | [] => None
  end.

(** The stages, in the order of the method chain. *)
Definition normalize_line_endings (s : jsstring) : jsstring :=
  replace re_cr (replace re_crlf s).

Definition strip_markdown (s : jsstring) : jsstring :=
  replace (re_delimited 40%N 41%N)
    (replace (re_delimited 91%N 93%N)
       (replace re_link s)).

Definition drop_nonprintable (s : jsstring) : jsstring :=
  replace re_not_keepable s.

Definition strip_format_chars (s : jsstring) : jsstring :=
  replace re_format_char s.

Definition collapse_whitespace (s : jsstring) : jsstring :=
  replace (re_run (fun c => (c =? LF)%N)) (replace (re_run is_space) s).

Definition max_length : nat := 2000.
Definition min_length : nat := 10.

Definition truncate (s : jsstring) : jsstring :=
  if max_length <? length s then substring0 max_length s else s.

(** [cleanContent] as it stands after line 100. *)
Definition cleanContent (content : jsstring) : jsstring :=
  let s := replace re_crlf content in
  let s := replace re_cr s in
  let s := replace re_link s in
  let s := replace (re_delimited 91%N 93%N) s in
  let s := replace (re_delimited 40%N 41%N) s in
  let s := replace re_not_keepable s in
  let s := replace re_format_char s in
  let s := replace (re_run is_space) s in
  let s := replace (re_run (fun c => (c =? LF)%N)) s in
  let s := trim s in
  if 2000 <? length s then substring0 2000 s else s.

(** The output alphabet: printable ASCII, 0x20 to 0x7E. *)
Definition printable (c : code_unit) : Prop := (32 <= c <= 126)%N.

(** No space is followed by a space. *)
Fixpoint single_spaced (s : jsstring) : Prop :=
  match s with
  | c :: t => (c = SP -> head t <> Some SP) /\ single_spaced t
  | [] => True
  end.

End Sanitizer.

(** ** The sanitizer in the words of its description

    A second definition of the cleaned text, written from the steps as
    they are described and without patterns, to compare [cleanContent]
    with: line endings made one, markdown links resolved to their text,
    bracketed references and parentheticals removed, what is not plain
    dropped, the words joined by single spaces, the result cut at the
    maximum length. *)

Module Reference.
Import Js.

(** CR LF and a lone CR become LF. *)
Fixpoint unify_line_endings (s : jsstring) : jsstring :=
  match s with
  | [] => []
  | c :: t =>
      if (c =? 13)%N then
        10%N :: match t with
                | d :: t' =>
                    if (d =? 10)%N then unify_line_endings t'
                    else unify_line_endings t
                | [] => []
                end
      else c :: unify_line_endings t
  end.

(** The text before the first [c] and the text after it. *)
Fixpoint split_at (c : code_unit) (s : jsstring)
  : option (jsstring * jsstring) :=
  match s with
  | [] => None
  | x :: t =>
      if (x =? c)%N then Some ([], t)
      else match split_at c t with
           | Some (before, after) => Some (x :: before, after)
           | None => None
           end
  end.

(** A markdown link at the head of the text: an opening square bracket,
    the link text up to the next closing one, an opening parenthesis right
    after it, and a target up to the next closing parenthesis.  The result
    is the link text and what follows the link. *)
Definition link_at (s : jsstring) : option (jsstring * jsstring) :=
  match s with
  | c :: t =>
      if (c =? 91)%N then
        match split_at 93%N t with
        | Some (text, p :: r) =>
            if (p =? 40)%N then
              match split_at 41%N r with
              | Some (_, rest) => Some (text, rest)
              | None => None
              end
            else None
        | _ => None
        end
      else None
  | [] => None
  end.

(** A delimited passage at the head of the text: from an opening
    delimiter to the next closing one.  It is replaced by nothing. *)
Definition delimited_at (opening closing : code_unit) (s : jsstring)
  : option (jsstring * jsstring) :=
  match s with
  | c :: t =>
      if (c =? opening)%N then
        match split_at closing t with
        | Some (_, rest) => Some ([], rest)
        | None => None
        end
      else None
  | [] => None
  end.

(** Every occurrence replaced, from left to right, the search resuming
    after each.  [fuel] bounds the number of steps; the length of the text
    is enough. *)
Fixpoint rewrite_all (at_head : jsstring -> option (jsstring * jsstring))
    (fuel : nat) (s : jsstring) : jsstring :=
  match fuel with
  | 0 => []
  | S fuel' =>
      match s with
      | [] => []
      | c :: t =>
          match at_head s with
          | Some (instead, rest) => instead ++ rewrite_all at_head fuel' rest
          | None => c :: rewrite_all at_head fuel' t
          end
      end
  end.

Definition strip_markdown (s : jsstring) : jsstring :=
  let s := rewrite_all link_at (length s) s in
  let s := rewrite_all (delimited_at 91%N 93%N) (length s) s in
  rewrite_all (delimited_at 40%N 41%N) (length s) s.

(** The markdown formatting characters: # * _ ` ~ *)
Definition markdown_mark (c : code_unit) : bool :=
  existsb (N.eqb c) [35; 42; 95; 96; 126]%N.

(** What stays: newline and printable ASCII, the markdown formatting
    characters apart. *)
Definition plain (c : code_unit) : bool :=
  ((c =? 10) || (32 <=? c) && (c <=? 126))%N && negb (markdown_mark c).

(** Among what stays, space and newline separate words. *)
Definition blank (c : code_unit) : bool := ((c =? 32) || (c =? 10))%N.

(** The text cut at every blank; [words] are the pieces that are not
    empty, and [unwords] joins them by single spaces. *)
Fixpoint pieces (s : jsstring) : list jsstring :=
  match s with
  | [] => [[]]
  | c :: t =>
      if blank c then [] :: pieces t
      else match pieces t with
           | w :: ws => (c :: w) :: ws
           | [] => [[c]]
           end
  end.

Definition words (s : jsstring) : list jsstring :=
  List.filter (fun w => negb (length w =? 0)) (pieces s).

Definition unwords (ws : list jsstring) : jsstring :=
  match ws with
  | [] => []
  | w :: rest => w ++ flat_map (fun w' => 32%N :: w') rest
  end.

(** A pattern of the handler and a search for an occurrence at the head
    say the same when the search gives the pattern's replacement and the
    text after the match. *)
Definition agree (m : matcher)
    (at_head : jsstring -> option (jsstring * jsstring)) : Prop :=
  forall s, at_head s =
    match m s with
    | Some (n, rep) => Some (rep, skipn n s)
    | None => None
    end.

End Reference.

(** ** What the two edge functions share: environment, request, response *)

Module Http.

(** [Deno.env.get] yields a string or [undefined]. *)
Record env := {
  SUPA_URL : option string;
  SUPA_ANON_KEY : option string
}.

(** JavaScript truthiness of a value that is a string, [null] or
    [undefined]: only a non-empty string is truthy. *)
Definition truthy (v : option string) : bool :=
  match v with
  | Some EmptyString | None => false
  | Some _ => true
  end.

(** Both variables of the environment are set. *)
Definition configured (e : env) : bool :=
  truthy (SUPA_URL e) && truthy (SUPA_ANON_KEY e).

(** A response is kept to its status and body; the headers play no part in
    what follows. *)
Inductive body :=
| BodyText (text : string)
| BodyError (message : string)      (* JSON.stringify({ error: message }) *)
| BodyQueryError                    (* JSON.stringify({ error: selectError }) *)
| BodyNull.

Record response := {
  status : Z;
  payload : body
}.

(** [new Response('ok', { headers: corsHeaders })]: the status defaults to 200. *)
Definition preflight_response : response :=
  {| status := 200; payload := BodyText "ok" |}.

Definition error_response (message : string) : response :=
  {| status := 500; payload := BodyError message |}.

Definition no_content : response :=
  {| status := 204; payload := BodyNull |}.

End Http.

(** ** The embedding endpoint (embed/index.ts)

    The entries of an embedding are JavaScript numbers.  Nothing in the
    handler computes with them, so their type is a parameter [num] with the
    number [zero] used for padding. *)

Module Embed.
Import Js Sanitizer Http.

Section Handler.
Context {num : Type}.
Variable zero : num.

(** Lines 136-148.  [output] is an array, hence truthy, so the first conjunct
    of the guard always holds. *)
Definition normalize_output (output : list num) : list num :=
  if negb (length output =? 1024) then
    if 1024 <? length output then
      firstn 1024 output
    else
      output ++ repeat zero (1024 - length output)
  else output.

(** One pass through the body of the retry loop: the session constructor
    throws, [model.run] throws, or [model.run] returns. *)
Inductive attempt_outcome :=
| SessionThrows
| RunThrows
| RunReturns (output : list num).

(** What the handler cannot decide: the answers of the inference runtime
    and of the database.  Within one run a row is processed once and each
    of its attempts happens once, so an answer per row and attempt loses no
    generality; two runs may be given two worlds. *)
Record world := {
  select_error : bool;
  attempt : Z -> nat -> jsstring -> attempt_outcome;
  update_error : Z -> option (list num) -> bool
}.

(** A row of the table named by the request, reduced to the content column
    and the embedding column; the table is keyed by [id]. *)
Record section_row := {
  content : option jsstring;
  embedding : option (list num)
}.

Inductive event :=
| EvCreateClient
| EvSelect (ids : list Z)
| EvSession (id : Z) (retryCount : nat)     (* line 126 *)
| EvStabilise (id : Z) (ms : N)             (* line 129 *)
| EvRun (id : Z) (text : jsstring)          (* line 131 *)
| EvBackoff (id : Z) (ms : N)               (* line 161 *)
| EvUpdate (id : Z) (value : option (list num)).

Definition maxRetries : nat := 3.

Inductive loop_exit :=
| Rethrown                         (* line 157 *)
| Broke (output : list num)        (* line 151 *)
| ConditionFalse.                  (* the loop condition failed; output is undefined *)

(** Lines 116-163.  [remaining] is [maxRetries - retryCount], which is what
    the loop condition tests. *)
Fixpoint retry_loop (w : world) (id : Z) (text : jsstring) (remaining : nat)
  : list event * loop_exit :=
  match remaining with
  | 0 => ([], ConditionFalse)
  | S fewer =>
      let retryCount := maxRetries - remaining in
      let caught (evs : list event) :=
        let retryCount := S retryCount in
        if maxRetries <=? retryCount then (evs, Rethrown)
        else
          let '(later, exit) := retry_loop w id text fewer in
          (evs ++ EvBackoff id (3000 * N.of_nat retryCount) :: later, exit) in
      match attempt w id retryCount text with
      | SessionThrows => caught [EvSession id retryCount]
      | RunThrows =>
          caught [EvSession id retryCount; EvStabilise id 1000; EvRun id text]
      | RunReturns output =>
          ([EvSession id retryCount; EvStabilise id 1000; EvRun id text],
           Broke (normalize_output output))
      end
  end.

(** [update({ [embeddingColumn]: embedding }).eq('id', id)]; an undefined
    value is dropped from the request body, which then sets no column. *)
Definition update_embedding (id : Z) (value : option (list num))
    (db : gmap Z section_row) : gmap Z section_row :=
  match value with
  | Some v => alter (fun r => {| content := content r; embedding := Some v |}) id db
  | None => db
  end.

(** Lines 165-183. *)
Definition persist (w : world) (id : Z) (value : option (list num))
    (db : gmap Z section_row) : list event * gmap Z section_row :=
  ([EvUpdate id value],
   if update_error w id value then db else update_embedding id value db).

(** The body of the [for] loop, lines 73-195. *)
Definition process_row (w : world) (db : gmap Z section_row)
    (row : Z * option jsstring) : list event * gmap Z section_row :=
  match row.2 with
  | None | Some [] => ([], db)
  | Some c =>
      let clean := cleanContent c in
      if length clean <? 10 then ([], db)
      else
        match retry_loop w row.1 clean maxRetries with
        | (evs, Rethrown) => (evs, db)
        | (evs, Broke output) =>
            let '(evs', db') := persist w row.1 (Some output) db in
            (evs ++ evs', db')
        | (evs, ConditionFalse) =>
            let '(evs', db') := persist w row.1 None db in
            (evs ++ evs', db')
        end
  end.

Fixpoint process_rows (w : world) (rows : list (Z * option jsstring))
    (db : gmap Z section_row) : list event * gmap Z section_row :=
  match rows with
  | [] => ([], db)
  | row :: rest =>
      let '(evs, db1) := process_row w db row in
      let '(evs', db2) := process_rows w rest db1 in
      (evs ++ evs', db2)
  end.

(** Lines 59-63: [select(id, content).in('id', ids).is(embedding, null)]. *)
Definition unembedded (ids : list Z) (entry : Z * section_row) : Prop :=
  entry.1 ∈ ids ∧ embedding entry.2 = None.

Global Instance unembedded_dec ids entry : Decision (unembedded ids entry).
Proof.
  unfold unembedded. destruct (embedding entry.2).
  - right. intros [_ H]. discriminate.
  - destruct (decide (entry.1 ∈ ids)); [left | right]; tauto.
Defined.

Definition select_rows (ids : list Z) (db : gmap Z section_row)
  : list (Z * option jsstring) :=
  (fun entry => (entry.1, content entry.2))
    <$> filter (unembedded ids) (map_to_list db).

(** The request, after [req.json()] has parsed its body; the table and the
    two columns it names are those of [section_row], whose content is
    text.  [Endpoint.request] below is the request before that. *)
Record request := {
  method : string;
  authorization : option string;
  ids : list Z
}.

(** [req.method === 'OPTIONS']: a CORS preflight. *)
Definition preflight (req : request) : bool :=
  String.eqb (method req) "OPTIONS".

(** The handler passed to [Deno.serve], for a request whose body was read
    and a table of text: the response, the effects in the order they
    happen, and the table afterwards.  On such input no statement outside
    a [try] throws, the client library permitting; [Endpoint.serve] below
    is the handler on every input, with the exits by exception, and
    [EndpointProps.serve_handler] relates the two. *)
Definition handler (e : env) (w : world) (req : request)
    (db : gmap Z section_row) : response * list event * gmap Z section_row :=
  if preflight req then (preflight_response, [], db)
  else if negb (truthy (SUPA_URL e)) || negb (truthy (SUPA_ANON_KEY e)) then
    (error_response "Missing environment variables.", [], db)
  else if negb (truthy (authorization req)) then
    (error_response "No authorization header passed", [], db)
  else if select_error w then
    ({| status := 500; payload := BodyQueryError |},
     [EvCreateClient; EvSelect (ids req)], db)
  else
    let '(evs, db') := process_rows w (select_rows (ids req) db) db in
    (no_content, EvCreateClient :: EvSelect (ids req) :: evs, db').

(** The three components of a run. *)
Definition answer (e : env) (w : world) (req : request)
    (db : gmap Z section_row) : response := (handler e w req db).1.1.

Definition effects (e : env) (w : world) (req : request)
    (db : gmap Z section_row) : list event := (handler e w req db).1.2.

Definition table_after (e : env) (w : world) (req : request)
    (db : gmap Z section_row) : gmap Z section_row := (handler e w req db).2.

End Handler.

Arguments attempt_outcome : clear implicits.
Arguments world : clear implicits.
Arguments section_row : clear implicits.
Arguments event : clear implicits.
Arguments loop_exit : clear implicits.

(** *** Reading a trace *)

Section Trace.
Context {num : Type}.

(** The row an effect belongs to. *)
Definition event_row (ev : event num) : option Z :=
  match ev with
  | EvCreateClient | EvSelect _ => None
  | EvSession id _ | EvStabilise id _ | EvRun id _ | EvBackoff id _
  | EvUpdate id _ => Some id
  end.

Definition row_events (id : Z) (evs : list (event num)) : list (event num) :=
  filter (fun ev => event_row ev = Some id) evs.

(** The attempts (by their [retryCount]), the texts given to the model, the
    back-off delays and the values written, each in order of occurrence. *)
Definition sessions (evs : list (event num)) : list nat :=
  omap (fun ev => match ev with EvSession _ k => Some k | _ => None end) evs.

Definition runs (evs : list (event num)) : list jsstring :=
  omap (fun ev => match ev with EvRun _ text => Some text | _ => None end) evs.

Definition backoffs (evs : list (event num)) : list N :=
  omap (fun ev => match ev with EvBackoff _ ms => Some ms | _ => None end) evs.

Definition updates (evs : list (event num)) : list (option (list num)) :=
  omap (fun ev => match ev with EvUpdate _ v => Some v | _ => None end) evs.

(** Attempts ([inl retryCount]) and back-off delays ([inr ms]) as they
    alternate in time. *)
Definition timeline (evs : list (event num)) : list (nat + N) :=
  omap (fun ev =>
          match ev with
          | EvSession _ k => Some (inl k)
          | EvBackoff _ ms => Some (inr ms)
          | _ => None
          end) evs.

(** The longest such timeline the loop can produce. *)
Definition full_timeline : list (nat + N) :=
  [inl 0; inr 3000%N; inl 1; inr 6000%N; inl 2].

(** An attempt that does not produce an output. *)
Definition fails (o : attempt_outcome num) : Prop :=
  match o with
  | RunReturns _ => False
  | _ => True
  end.

End Trace.

End Embed.

(** ** The processing endpoint

    [processMarkdown] lives in [_lib/markdown-parser.ts] and is a parameter
    of the model, as are the answers of the database and of the object
    store. *)

Module Process.
Import Js Http.

Record world := {
  (* [storage_object_path] of the document found by the query, if both exist *)
  document_path : Z -> option string;
  (* the downloaded file's text, if the download yields a file *)
  download : string -> option jsstring;
  (* the contents of the sections of the parsed file *)
  processMarkdown : jsstring -> list jsstring;
  insert_error : bool
}.

Inductive event :=
| EvCreateClient
| EvSelectDocument (document_id : Z)
| EvDownload (path : string)
| EvInsertSections (document_id : Z) (contents : list jsstring).

Record request := {
  method : string;
  authorization : option string;
  document_id : Z
}.

(** [req.method === 'OPTIONS']: a CORS preflight. *)
Definition preflight (req : request) : bool :=
  String.eqb (method req) "OPTIONS".

Definition handler (e : env) (w : world) (req : request)
  : response * list event :=
  if preflight req then (preflight_response, [])
  else if negb (truthy (SUPA_URL e)) || negb (truthy (SUPA_ANON_KEY e)) then
    (error_response "Missing environment variables.", [])
  else if negb (truthy (authorization req)) then
    (error_response "No authorization header passed", [])
  else
    let id := document_id req in
    let path := document_path w id in
    if negb (truthy path) then
      (error_response "Failed to find uploaded document",
       [EvCreateClient; EvSelectDocument id])
    else
      let path := default EmptyString path in
      match download w path with
      | None =>
          (error_response "Failed to download storage object",
           [EvCreateClient; EvSelectDocument id; EvDownload path])
      | Some fileContents =>
          let sections := processMarkdown w fileContents in
          let evs := [EvCreateClient; EvSelectDocument id; EvDownload path;
                      EvInsertSections id sections] in
          if insert_error w then
            (error_response "Failed to save document sections", evs)
          else (no_content, evs)
      end.

End Process.

(** ** The migration: schema and storage trigger *)

Module Schema.

(** [embedding vector (384)] of [document_sections]. *)
Definition embedding_dimensions : nat := 384.

(** A row of [documents]; the three columns the trigger fills are all
    declared [not null]. *)
Record document := {
  id : Z;
  name : string;
  storage_object_id : string;
  created_by : string
}.

(** The columns of the new [storage.objects] row that the trigger reads.
    [storage.objects] belongs to the storage service: [bucket_id] is a
    nullable reference to a bucket, [path_tokens] is the text array of the
    segments of the object's name (null for a null name, and then as empty
    as far as its second element goes), and [owner] is null for an object
    stored without a user. *)
Record storage_object := {
  object_id : string;
  bucket_id : option string;
  path_tokens : list string;
  owner : option string
}.

(** A request queued by [net.http_post]. *)
Record http_post := {
  url : string;
  headers : list (string * string);
  body_document_id : Z
}.

(** The role on whose behalf the statement that fires the trigger runs.
    The trigger function is not [security definer], so its insert into
    [documents] runs as that role, under the row level security of lines
    29-40: a role that bypasses it (the owner of the table, the service
    role), the role [authenticated] with the user that [auth.uid()] gives
    (null without one), or a role that no policy of the table names. *)
Inductive invoker :=
| Bypassing
| Authenticated (uid : option string)
| Unlisted.

Record database := {
  documents : list document;
  documents_identity : Z;          (* next value of the identity column *)
  http_queue : list http_post;
  users : list string;             (* the ids of [auth.users] *)
  session : invoker
}.

Inductive outcome :=
| Returned (db : database)
| Raised (sqlstate : string).      (* the statement is rolled back *)

Definition supabase_url : string := "http://kong:8000".

(** The policies [Users can insert documents] and, for the [returning]
    clause, [Users can query their own documents]: both ask that
    [auth.uid() = created_by] be true, which a null on either side is
    not. *)
Definition admitted (s : invoker) (created_by : option string) : bool :=
  match s with
  | Bypassing => true
  | Authenticated (Some uid) =>
      match created_by with
      | Some o => String.eqb uid o
      | None => false
      end
  | Authenticated None | Unlisted => false
  end.

Inductive inserted :=
| Inserted (id : Z) (db : database)
| Refused (sqlstate : string).

(** [insert into documents (name, storage_object_id, created_by) values
    (...) returning id].  The row is checked against the policies first
    (42501), then against the [not null] constraints of [name] and
    [created_by] (23502), and once inserted against the foreign key of
    [created_by] into [auth.users] (23503).  The foreign key of
    [storage_object_id] holds: the object is the row whose insertion fired
    the trigger. *)
Definition insert_document (name created_by : option string)
    (object_id : string) (db : database) : inserted :=
  if negb (admitted (session db) created_by) then Refused "42501"
  else
    match name, created_by with
    | Some n, Some o =>
        if bool_decide (o ∈ users db) then
          let new_id := documents_identity db in
          Inserted new_id
            {| documents := documents db ++
                 [{| id := new_id; name := n;
                     storage_object_id := object_id; created_by := o |}];
               documents_identity := (new_id + 1)%Z;
               http_queue := http_queue db;
               users := users db;
               session := session db |}
        else Refused "23503"
    | _, _ => Refused "23502"
    end.

(** [new.bucket_id != 'files'], line 96: true for another bucket, false
    for [files], and null, which [if] takes as not true, for a null
    bucket. *)
Definition other_bucket (new : storage_object) : bool :=
  match bucket_id new with
  | Some b => negb (String.eqb b "files")
  | None => false
  end.

(** [private.handle_storage_update()].  Arrays are indexed from 1 and a
    subscript out of range yields null, so [path_tokens[2]] is
    [nth_error _ 1].  The bearer token is a literal of the function body; it
    is kept out of this file and passed as [service_token]. *)
Definition handle_storage_update (service_token : string)
    (new : storage_object) (db : database) : outcome :=
  if other_bucket new then Returned db
  else
    match insert_document (nth_error (path_tokens new) 1) (owner new)
            (object_id new) db with
    | Refused sqlstate => Raised sqlstate
    | Inserted document_id db1 =>
        Returned
          {| documents := documents db1;
             documents_identity := documents_identity db1;
             http_queue := http_queue db1 ++
               [{| url := String.append supabase_url "/functions/v1/process";
                   headers := [("Content-Type", "application/json");
                               ("Authorization", String.append "Bearer " service_token)];
                   body_document_id := document_id |}];
             users := users db1;
             session := session db1 |}
    end.

End Schema.

(** ** Concrete inputs used by the examples below *)

Module Sample.
Import Js Http.

Definition fox : jsstring := of_ascii "the quick brown fox".

Definition env_set : env :=
  {| SUPA_URL := Some "http://kong:8000"; SUPA_ANON_KEY := Some "anon-key" |}.


(** A batch request for row 1, and a preflight. *)
Definition batch_request : Embed.request :=
  {| Embed.method := "POST";
     Embed.authorization := Some "Bearer user-token";
     Embed.ids := [1%Z] |}.

Definition anonymous_batch_request : Embed.request :=
  {| Embed.method := "POST";
     Embed.authorization := None;
     Embed.ids := [1%Z] |}.

Definition preflight_request : Embed.request :=
  {| Embed.method := "OPTIONS";
     Embed.authorization := None;
     Embed.ids := [] |}.

(** The 384 entries that gte-small produces. *)
Definition native_output : list Z := repeat 7%Z 384.

(** A model that always answers, one that answers on the third attempt
    only, and one that never answers; the database accepts every write. *)
Definition steady : Embed.world Z :=
  {| Embed.select_error := false;
     Embed.attempt := fun _ _ _ => Embed.RunReturns native_output;
     Embed.update_error := fun _ _ => false |}.

Definition third_time_lucky : Embed.world Z :=
  {| Embed.select_error := false;
     Embed.attempt := fun _ k _ =>
       if k <? 2 then Embed.RunThrows else Embed.RunReturns native_output;
     Embed.update_error := fun _ _ => false |}.

Definition never : Embed.world Z :=
  {| Embed.select_error := false;
     Embed.attempt := fun _ k _ =>
       if k =? 1 then Embed.SessionThrows else Embed.RunThrows;
     Embed.update_error := fun _ _ => false |}.

(** A model that answers and a database that rejects every write. *)
Definition read_only : Embed.world Z :=
  {| Embed.select_error := false;
     Embed.attempt := fun _ _ _ => Embed.RunReturns native_output;
     Embed.update_error := fun _ _ => true |}.

(** One row without an embedding, one with, and one whose content cleans to
    fewer than ten code units. *)
Definition pending_table : gmap Z (Embed.section_row Z) :=
  {[ 1%Z := {| Embed.content := Some fox; Embed.embedding := None |} ]}.

Definition embedded_table : gmap Z (Embed.section_row Z) :=
  {[ 1%Z := {| Embed.content := Some fox;
               Embed.embedding := Some [5%Z; 5%Z] |} ]}.

Definition short_table : gmap Z (Embed.section_row Z) :=
  {[ 1%Z := {| Embed.content := Some (of_ascii "# hi (there)");
               Embed.embedding := None |} ]}.

(** The processing endpoint. *)
Definition process_world : Process.world :=
  {| Process.document_path := fun _ => Some "u/notes.md"%string;
     Process.download := fun _ => Some fox;
     Process.processMarkdown := fun text => [text];
     Process.insert_error := false |}.

Definition process_preflight : Process.request :=
  {| Process.method := "OPTIONS";
     Process.authorization := None;
     Process.document_id := 1%Z |}.

Definition anonymous_process_request : Process.request :=
  {| Process.method := "POST";
     Process.authorization := None;
     Process.document_id := 1%Z |}.

(** Storage events: outside the monitored bucket, a two-level path in it,
    and a file at its root; the database has no document yet, and user [u]
    is the one who uploads. *)
Definition empty_database : Schema.database :=
  {| Schema.documents := [];
     Schema.documents_identity := 1%Z;
     Schema.http_queue := [];
     Schema.users := ["u"]%string;
     Schema.session := Schema.Authenticated (Some "u"%string) |}.

Definition avatar_upload : Schema.storage_object :=
  {| Schema.object_id := "o-1";
     Schema.bucket_id := Some "avatars"%string;
     Schema.path_tokens := ["u"; "me.png"]%string;
     Schema.owner := Some "u"%string |}.

Definition file_upload : Schema.storage_object :=
  {| Schema.object_id := "o-2";
     Schema.bucket_id := Some "files"%string;
     Schema.path_tokens := ["u"; "notes.md"]%string;
     Schema.owner := Some "u"%string |}.

Definition root_upload : Schema.storage_object :=
  {| Schema.object_id := "o-3";
     Schema.bucket_id := Some "files"%string;
     Schema.path_tokens := ["notes.md"]%string;
     Schema.owner := Some "u"%string |}.

(** An object without a bucket, an object whose owner is not a user, and
    the database as the service role sees it. *)
Definition unfiled_upload : Schema.storage_object :=
  {| Schema.object_id := "o-4";
     Schema.bucket_id := None;
     Schema.path_tokens := ["u"; "notes.md"]%string;
     Schema.owner := Some "u"%string |}.

Definition stranger_upload : Schema.storage_object :=
  {| Schema.object_id := "o-5";
     Schema.bucket_id := Some "files"%string;
     Schema.path_tokens := ["stranger"; "notes.md"]%string;
     Schema.owner := Some "stranger"%string |}.

Definition service_database : Schema.database :=
  {| Schema.documents := [];
     Schema.documents_identity := 1%Z;
     Schema.http_queue := [];
     Schema.users := ["u"]%string;
     Schema.session := Schema.Bypassing |}.

End Sample.

(** ** Text the sanitizer has nothing left to do on *)

Module Settled.
Import Js Sanitizer.

(** No [opening] code unit has a [closing] one anywhere after it, so a
    delimited pattern finds nothing to match. *)
Fixpoint unmatched (opening closing : code_unit) (s : jsstring) : Prop :=
  match s with
  | c :: t => (c = opening -> closing ∉ t) /\ unmatched opening closing t
  | [] => True
  end.

(** Printable ASCII without markdown formatting characters, single-spaced,
    without a space at either end, without a bracket or parenthesis pair,
    and short enough. *)
Record settled (s : jsstring) : Prop := {
  settled_printable : Forall printable s;
  settled_unformatted : Forall (fun c => is_format_char c = false) s;
  settled_single_spaced : single_spaced s;
  settled_head : head s <> Some SP;
  settled_last : last s <> Some SP;
  settled_brackets : unmatched 91%N 93%N s;
  settled_parentheses : unmatched 40%N 41%N s;
  settled_length : length s <= max_length
}.

(** A pattern whose replacement is empty or one space: all patterns of the
    handler but the link pattern. *)
Definition blanking (m : matcher) : Prop :=
  forall s n rep, m s = Some (n, rep) -> rep = [] \/ rep = [SP].

(** A markdown link, [[text](target)]. *)
Definition link (text target : jsstring) : jsstring :=
  91%N :: text ++ 93%N :: 40%N :: target ++ [41%N].

End Settled.

(** ** Reading a run: the time it waits, whether it reaches the rows *)

Module Cost.
Import Http Embed.

(** The request passes every guard and the selection succeeds, so the rows
    are iterated. *)
Definition started {num : Type} (e : env) (w : world num) (req : request)
  : bool :=
  negb (preflight req) && configured e && truthy (authorization req)
  && negb (select_error w).

(** The milliseconds of a [setTimeout] (lines 129 and 161). *)
Definition delay {num : Type} (ev : event num) : N :=
  match ev with
  | EvStabilise _ ms | EvBackoff _ ms => ms
  | _ => 0%N
  end.

Definition waiting {num : Type} (evs : list (event num)) : N :=
  foldr (fun ev total => (delay ev + total)%N) 0%N evs.

End Cost.

(** ** The embedding endpoint as it is served

    [Embed.handler] is the handler for a request whose body has been read
    and for a table whose content column holds text, as the one of the
    migration does.  The function passed to [Deno.serve] can also throw,
    and a handler that throws is answered with status 500: creating the
    client (line 46), reading the body (line 57) and building the query
    (lines 59-63) are outside any [try], and the [catch] block of the row
    loop calls [content.substring] (line 191), which a content that is not
    a string does not have. *)

Module Endpoint.
Import Js Sanitizer Http.

(** The answer of [Deno.serve] when the handler throws. *)
Definition internal_error : response :=
  {| status := 500; payload := BodyText "Internal Server Error" |}.

Section Served.
Context {num : Type}.
Variable zero : num.
(** What the client library takes for a URL; [createClient] throws on
    anything else. *)
Variable valid_url : string -> bool.

(** The request as it arrives.  [body] holds the ids of the parsed body,
    and is [None] when lines 57 to 63 throw before the query is sent: the
    body is not JSON, is not an object, or its [ids] cannot be iterated. *)
Record request := {
  method : string;
  authorization : option string;
  body : option (list Z)
}.

(** The table the request names.  Where its content column holds a string
    or null, the row is as in [Embed.section_row].  [untyped id = Some t]
    says that the content of row [id] is another JSON value (a number, a
    boolean, an object or an array), truthy or not as [t] says; the
    [content] field of such a row is not looked at. *)
Record table := {
  rows : gmap Z (Embed.section_row num);
  untyped : Z -> option bool
}.

(** [req.method === 'OPTIONS']: a CORS preflight. *)
Definition preflight (req : request) : bool :=
  String.eqb (method req) "OPTIONS".

(** The [for] loop, lines 72-196, with its exit by exception.  A content
    that is falsy is passed over at line 75.  A truthy content that is not
    a string has no [replace]: line 84 throws inside the [try], the [catch]
    block throws again at line 191, and the loop ends there. *)
Fixpoint serve_rows (w : Embed.world num) (untyped : Z -> option bool)
    (selected : list (Z * option jsstring))
    (db : gmap Z (Embed.section_row num))
  : list (Embed.event num) * gmap Z (Embed.section_row num) * bool :=
  match selected with
  | [] => ([], db, false)
  | row :: rest =>
      match untyped row.1 with
      | Some true => ([], db, true)
      | Some false => serve_rows w untyped rest db
      | None =>
          let '(evs, db1) := Embed.process_row zero w db row in
          let '(evs', db2, thrown) := serve_rows w untyped rest db1 in
          (evs ++ evs', db2, thrown)
      end
  end.

(** The function passed to [Deno.serve], with the answer [Deno.serve]
    gives when it throws. *)
Definition serve (e : env) (w : Embed.world num) (req : request)
    (t : table)
  : response * list (Embed.event num) * gmap Z (Embed.section_row num) :=
  if preflight req then (preflight_response, [], rows t)
  else if negb (truthy (SUPA_URL e)) || negb (truthy (SUPA_ANON_KEY e)) then
    (error_response "Missing environment variables.", [], rows t)
  else if negb (truthy (authorization req)) then
    (error_response "No authorization header passed", [], rows t)
  else if negb (valid_url (default EmptyString (SUPA_URL e))) then
    (internal_error, [], rows t)
  else
    match body req with
    | None => (internal_error, [Embed.EvCreateClient], rows t)
    | Some ids =>
        if Embed.select_error w then
          ({| status := 500; payload := BodyQueryError |},
           [Embed.EvCreateClient; Embed.EvSelect ids], rows t)
        else
          let '(evs, db', thrown) :=
            serve_rows w (untyped t) (Embed.select_rows ids (rows t))
              (rows t) in
          (if thrown then internal_error else no_content,
           Embed.EvCreateClient :: Embed.EvSelect ids :: evs, db')
    end.

Definition answer (e : env) (w : Embed.world num) (req : request)
    (t : table) : response := (serve e w req t).1.1.


(** A request whose body was read, and a table of text. *)
Definition parsed (req : Embed.request) : request :=
  {| method := Embed.method req;
     authorization := Embed.authorization req;
     body := Some (Embed.ids req) |}.

Definition textual (db : gmap Z (Embed.section_row num)) : table :=
  {| rows := db; untyped := fun _ => None |}.

End Served.

Arguments request : clear implicits.
Arguments table : clear implicits.

End Endpoint.

(** ** The embedding endpoint without retries

    The other copy of the handler in the repository: one session for the
    whole batch, created after the selection, one run per row, a lighter
    cleaning with a limit of 4000 code units, and the model's output
    written as it comes.  Guards, selection, rows and request are those of
    [Embed]. *)

Module EmbedOnce.
Import Js Sanitizer Http.

Section Handler.
Context {num : Type}.

(** Lines 101-110. *)
Definition cleanContent (content : jsstring) : jsstring :=
  let s := replace re_crlf content in
  let s := replace re_cr s in
  let s := trim s in
  if 4000 <? length s then substring0 4000 s else s.

Inductive run_outcome :=
| RunThrows
| RunReturns (output : list num).

Record world := {
  select_error : bool;
  session_error : bool;            (* the constructor of line 76 throws *)
  run : Z -> jsstring -> run_outcome;
  update_error : Z -> list num -> bool
}.

Inductive event :=
| EvCreateClient
| EvSelect (ids : list Z)
| EvSession                                 (* line 76 *)
| EvRun (id : Z) (text : jsstring)          (* line 120 *)
| EvUpdate (id : Z) (value : list num).     (* lines 127-132 *)

(** The body of the [for] loop, lines 90-155. *)
Definition process_row (w : world) (db : gmap Z (Embed.section_row num))
    (row : Z * option jsstring)
  : list event * gmap Z (Embed.section_row num) :=
  match row.2 with
  | None | Some [] => ([], db)
  | Some c =>
      let clean := cleanContent c in
      if length clean <? 10 then ([], db)
      else
        match run w row.1 clean with
        | RunThrows => ([EvRun row.1 clean], db)
        | RunReturns output =>
            ([EvRun row.1 clean; EvUpdate row.1 output],
             if update_error w row.1 output then db
             else Embed.update_embedding row.1 (Some output) db)
        end
  end.

Fixpoint process_rows (w : world) (rows : list (Z * option jsstring))
    (db : gmap Z (Embed.section_row num))
  : list event * gmap Z (Embed.section_row num) :=
  match rows with
  | [] => ([], db)
  | row :: rest =>
      let '(evs, db1) := process_row w db row in
      let '(evs', db2) := process_rows w rest db1 in
      (evs ++ evs', db2)
  end.

Definition handler (e : env) (w : world) (req : Embed.request)
    (db : gmap Z (Embed.section_row num))
  : response * list event * gmap Z (Embed.section_row num) :=
  if Embed.preflight req then (preflight_response, [], db)
  else if negb (truthy (SUPA_URL e)) || negb (truthy (SUPA_ANON_KEY e)) then
    (error_response "Missing environment variables.", [], db)
  else if negb (truthy (Embed.authorization req)) then
    (error_response "No authorization header passed", [], db)
  else if select_error w then
    ({| status := 500; payload := BodyQueryError |},
     [EvCreateClient; EvSelect (Embed.ids req)], db)
  else if session_error w then
    (error_response "Failed to initialize AI model",
     [EvCreateClient; EvSelect (Embed.ids req); EvSession], db)
  else
    let '(evs, db') :=
      process_rows w (Embed.select_rows (Embed.ids req) db) db in
    (no_content,
     EvCreateClient :: EvSelect (Embed.ids req) :: EvSession :: evs, db').

End Handler.

Arguments run_outcome : clear implicits.
Arguments world : clear implicits.
Arguments event : clear implicits.

End EmbedOnce.

(** ** From the upload to the processing endpoint

    The view of the migration, the query the processing endpoint runs on
    it, and the request that [net.http_post] delivers.  The trigger posts
    with the service role, for which row level security does not apply, so
    the view is read without the policies. *)

Module Upload.
Import Js Http.

(** The inserts among the effects of the processing endpoint. *)
Definition inserts (evs : list Process.event) : list (Z * list jsstring) :=
  omap (fun ev => match ev with
                  | Process.EvInsertSections id contents => Some (id, contents)
                  | _ => None
                  end) evs.

(** [documents_with_storage_path]: [documents] joined with
    [storage.objects] on the object's id; an object is kept to its id and
    its name. *)
Definition documents_with_storage_path (docs : list Schema.document)
    (objects : list (string * string)) : list (Schema.document * string) :=
  d ← docs;
  o ← objects;
  if String.eqb o.1 (Schema.storage_object_id d) then [(d, o.2)] else [].

(** [.single()]: the row when there is exactly one, otherwise no data. *)
Definition single {A} (rows : list A) : option A :=
  match rows with
  | [row] => Some row
  | _ => None
  end.

(** [.from('documents_with_storage_path').select().eq('id', document_id)
    .single()], read at [storage_object_path]. *)
Definition find_document (docs : list Schema.document)
    (objects : list (string * string)) (document_id : Z) : option string :=
  snd <$> single (filter (fun row => Schema.id row.1 = document_id)
                    (documents_with_storage_path docs objects)).

Fixpoint header (name : string) (headers : list (string * string))
  : option string :=
  match headers with
  | [] => None
  | (k, v) :: rest => if String.eqb k name then Some v else header name rest
  end.

(** The request that a queued post makes of the processing endpoint. *)
Definition delivered (p : Schema.http_post) : Process.request :=
  {| Process.method := "POST";
     Process.authorization := header "Authorization" (Schema.headers p);
     Process.document_id := Schema.body_document_id p |}.

(** What the identity column and the trigger maintain: identifiers already
    given out lie below the next one and are distinct, and every queued
    request names a stored document. *)
Record consistent (db : Schema.database) : Prop := {
  consistent_below :
    Forall (fun d => (Schema.id d < Schema.documents_identity db)%Z)
      (Schema.documents db);
  consistent_distinct : NoDup (Schema.id <$> Schema.documents db);
  consistent_queue :
    Forall (fun p => Schema.body_document_id p ∈
                       Schema.id <$> Schema.documents db)
      (Schema.http_queue db)
}.

End Upload.

(** ** The pipeline worker (lib/workers/pipeline.ts)

    The listener is an async function: a call of it runs up to its first
    [await] and continues when the awaited promise settles, and other
    calls and continuations run in between.  The worker is therefore a
    machine that takes one action at a time: a message is delivered, the
    promise a suspended call awaits settles, or the library reports
    progress.  Which action comes next, and what a promise settles to, is
    up to the environment.  Values that only pass through (arguments,
    progress data, the module, the pipeline, its output, the reason of a
    rejection) are of a type [value]; the messages are of the declared type
    [IncomingEventData]. *)

Module Worker.

Section Machine.
Context {value : Type}.
(** The copy [{ ...output }] made of the output, line 128. *)
Variable spread : value -> value.
(** JavaScript truthiness, which lines 9 and 118 test. *)
Variable truthy : value -> bool.

(** [IncomingEventData] and [OutgoingEventData]. *)
Inductive incoming :=
| Init (args : value)
| Run (id : Z) (args : value).

Inductive outgoing :=
| Progress (data : value)
| Ready
| Result (id : Z) (data : value).

(** What the worker does that can be seen from outside: a message posted
    to the main thread, the error the listener throws at line 119, or a
    call of the listener that ends rejected with the reason a promise of
    the library was rejected with. *)
Inductive event :=
| Post (m : outgoing)
| Throw (message : string)
| Fail (reason : value).

(** A suspended call of the listener, by the [await] it stands at. *)
Inductive task :=
| AwaitImport (args : value)     (* line 10, reached from lines 106 and 84 *)
| AwaitLoaded (args : value)     (* line 84 *)
| AwaitPipeline (args : value)   (* line 85 *)
| AwaitInit                      (* line 106 *)
| AwaitOutput (id : Z).          (* line 124 *)

Record state := {
  transformers : bool;             (* [transformers] holds a truthy value *)
  instance : option value;         (* [PipelineSingleton.instance], if assigned *)
  pending : list task;
  trace : list event
}.

Definition start : state :=
  {| transformers := false; instance := None; pending := []; trace := [] |}.

Inductive settlement :=
| Fulfilled (v : value)
| Rejected (reason : value).

Inductive action :=
| Deliver (m : incoming)
| Settle (k : nat) (r : settlement)   (* the promise of the k-th task *)
| Callback (k : nat) (data : value).  (* [progress_callback], lines 97-102 *)

Definition suspend (t : task) (s : state) : state :=
  {| transformers := transformers s; instance := instance s;
     pending := pending s ++ [t]; trace := trace s |}.

Definition resume (k : nat) (t : task) (s : state) : state :=
  {| transformers := transformers s; instance := instance s;
     pending := <[k := t]> (pending s); trace := trace s |}.

Definition finish (k : nat) (evs : list event) (s : state) : state :=
  {| transformers := transformers s; instance := instance s;
     pending := delete k (pending s); trace := trace s ++ evs |}.

Definition emit (ev : event) (s : state) : state :=
  {| transformers := transformers s; instance := instance s;
     pending := pending s; trace := trace s ++ [ev] |}.

(** [!PipelineSingleton.instance], line 118: nothing was assigned, or what
    was assigned is falsy. *)
Definition uninitialised (s : state) : bool :=
  match instance s with
  | Some v => negb (truthy v)
  | None => true
  end.

(** One action.  An action that cannot happen in the state (a task that
    does not exist, a rejection of a promise that is already fulfilled,
    progress of a pipeline that is not being built) leaves it as it is.  A
    call of the library that throws at once counts as a promise rejected
    with what was thrown. *)
Definition step (s : state) (a : action) : state :=
  match a with
  | Deliver (Init args) =>
      (* lines 104-106, 84, 9-10: the import is awaited unless cached *)
      suspend (if transformers s then AwaitLoaded args else AwaitImport args) s
  | Deliver (Run id args) =>
      (* lines 118-124 *)
      if uninitialised s then emit (Throw "Pipeline not initialized") s
      else suspend (AwaitOutput id) s
  | Callback k data =>
      match pending s !! k with
      | Some (AwaitPipeline _) => emit (Post (Progress data)) s
      | _ => s
      end
  | Settle k r =>
      match pending s !! k, r with
      | Some (AwaitImport args), Fulfilled v =>
          (* lines 10-14 *)
          resume k (AwaitLoaded args)
            {| transformers := truthy v; instance := instance s;
               pending := pending s; trace := trace s |}
      | Some (AwaitLoaded args), Fulfilled _ =>
          (* line 85: the pipeline is being built *)
          resume k (AwaitPipeline args) s
      | Some (AwaitPipeline _), Fulfilled v =>
          (* line 85: the pipeline is stored *)
          resume k AwaitInit
            {| transformers := transformers s; instance := Some v;
               pending := pending s; trace := trace s |}
      | Some AwaitInit, Fulfilled _ =>
          (* lines 111-113 *)
          finish k [Post Ready] s
      | Some (AwaitOutput id), Fulfilled output =>
          (* lines 128-134 *)
          finish k [Post (Result id (spread output))] s
      | Some (AwaitImport _), Rejected reason
      | Some (AwaitPipeline _), Rejected reason
      | Some (AwaitOutput _), Rejected reason =>
          (* the call of the listener ends with the rejection *)
          finish k [Fail reason] s
      | _, _ => s
      end
  end.

Definition exec (acts : list action) (s : state) : state :=
  foldl step s acts.

(** The identifiers of the run requests delivered, of the runs still
    awaited, and of the results posted. *)
Definition requested (acts : list action) : list Z :=
  omap (fun a => match a with Deliver (Run id _) => Some id | _ => None end)
    acts.

Definition awaited (tasks : list task) : list Z :=
  omap (fun t => match t with AwaitOutput id => Some id | _ => None end) tasks.

Definition answered (evs : list event) : list Z :=
  omap (fun ev => match ev with Post (Result id _) => Some id | _ => None end)
    evs.

Definition initialising (a : action) : bool :=
  match a with Deliver (Init _) => true | _ => false end.

(** What one action adds to the trace. *)
Definition added (s : state) (a : action) : list event :=
  match a with
  | Deliver (Init _) => []
  | Deliver (Run _ _) =>
      if uninitialised s then [Throw "Pipeline not initialized"] else []
  | Callback k data =>
      match pending s !! k with
      | Some (AwaitPipeline _) => [Post (Progress data)]
      | _ => []
      end
  | Settle k r =>
      match pending s !! k, r with
      | Some AwaitInit, Fulfilled _ => [Post Ready]
      | Some (AwaitOutput id), Fulfilled output =>
          [Post (Result id (spread output))]
      | Some (AwaitImport _), Rejected reason
      | Some (AwaitPipeline _), Rejected reason
      | Some (AwaitOutput _), Rejected reason => [Fail reason]
      | _, _ => []
      end
  end.

(** The value an action stores as the pipeline, and the values stored in
    a course of events: what the promises of [pipeline(...)] are fulfilled
    with. *)
Definition stored (s : state) (a : action) : list value :=
  match a with
  | Settle k (Fulfilled v) =>
      match pending s !! k with
      | Some (AwaitPipeline _) => [v]
      | _ => []
      end
  | _ => []
  end.

Fixpoint pipelines (s : state) (acts : list action) : list value :=
  match acts with
  | [] => []
  | a :: rest => stored s a ++ pipelines (step s a) rest
  end.

(** Invariants of the machine.  A call that waits to post [ready], or has
    posted it, has stored a pipeline that passes the test of line 118; no
    error of line 119 follows [ready] in the trace; the results posted and
    the runs awaited are accounted for by the requests delivered. *)
Definition initialised (s : state) : Prop :=
  AwaitInit ∈ pending s \/ Post Ready ∈ trace s -> uninitialised s = false.

Definition ordered (evs : list event) : Prop :=
  forall pre post message,
    evs = pre ++ Post Ready :: post -> Throw message ∉ post.

Definition accounted (acts : list action) (s : state) : Prop :=
  answered (trace s) ++ awaited (pending s) ⊆+ requested acts.

End Machine.

Arguments incoming : clear implicits.
Arguments outgoing : clear implicits.
Arguments event : clear implicits.
Arguments task : clear implicits.
Arguments state : clear implicits.
Arguments settlement : clear implicits.
Arguments action : clear implicits.

End Worker.

(** ** Further concrete inputs *)

Module Cases.
Import Js Http Sample.

(** A text that begins like a second sentence. *)
Definition dog : jsstring := of_ascii "jumps over the lazy dog".

Definition markdown : jsstring :=
  of_ascii "  # The [quick](http://example.com)   brown fox  ".

Definition target : jsstring := of_ascii "https://example.com/fox".

(** 1999 letters, a space and one more letter: the limit falls right after
    the space. *)
Definition cut_after_space : jsstring := repeat 97%N 1999 ++ [SP; 98%N].


(** Two rows to embed, and a row whose content is the empty string. *)
Definition two_rows : gmap Z (Embed.section_row Z) :=
  {[ 1%Z := {| Embed.content := Some fox; Embed.embedding := None |};
     2%Z := {| Embed.content := Some dog; Embed.embedding := None |} ]}.

(** An inference runtime whose first three calls fail, as the batch sees
    it when row 1 comes first and when row 2 comes first. *)
Definition fails_first_row : Embed.world Z :=
  {| Embed.select_error := false;
     Embed.attempt := fun id _ _ =>
       if (id =? 1)%Z then Embed.RunThrows
       else Embed.RunReturns native_output;
     Embed.update_error := fun _ _ => false |}.

Definition fails_second_row : Embed.world Z :=
  {| Embed.select_error := false;
     Embed.attempt := fun id _ _ =>
       if (id =? 2)%Z then Embed.RunThrows
       else Embed.RunReturns native_output;
     Embed.update_error := fun _ _ => false |}.

Definition blank_table : gmap Z (Embed.section_row Z) :=
  {[ 1%Z := {| Embed.content := Some []; Embed.embedding := None |} ]}.

Definition second_request : Embed.request :=
  {| Embed.method := "POST";
     Embed.authorization := Some "Bearer user-token";
     Embed.ids := [2%Z] |}.


Definition unreadable_request : Endpoint.request :=
  {| Endpoint.method := "POST";
     Endpoint.authorization := Some "Bearer user-token";
     Endpoint.body := None |}.

Definition both_rows_request : Endpoint.request :=
  {| Endpoint.method := "POST";
     Endpoint.authorization := Some "Bearer user-token";
     Endpoint.body := Some [1%Z; 2%Z] |}.

Definition mixed_table : Endpoint.table Z :=
  {| Endpoint.rows := two_rows;
     Endpoint.untyped := fun id => if (id =? 1)%Z then Some true else None |}.

Definition any_url (url : string) : bool := true.

(** The endpoint without retries, with a model that always answers. *)
Definition once_steady : EmbedOnce.world Z :=
  {| EmbedOnce.select_error := false;
     EmbedOnce.session_error := false;
     EmbedOnce.run := fun _ _ => EmbedOnce.RunReturns native_output;
     EmbedOnce.update_error := fun _ _ => false |}.

(** The upload of [Sample.file_upload] into an empty database: the stored
    objects, the database after the trigger, and an endpoint that reads
    both. *)
Definition stored_objects : list (string * string) :=
  [("o-1", "u/me.png"); ("o-2", "u/notes.md")]%string.

Definition uploaded_database : Schema.database :=
  {| Schema.documents :=
       [{| Schema.id := 1; Schema.name := "notes.md";
           Schema.storage_object_id := "o-2"; Schema.created_by := "u" |}];
     Schema.documents_identity := 2;
     Schema.http_queue :=
       [{| Schema.url := "http://kong:8000/functions/v1/process";
           Schema.headers := [("Content-Type", "application/json");
                              ("Authorization", "Bearer service-token")]%string;
           Schema.body_document_id := 1 |}];
     Schema.users := ["u"]%string;
     Schema.session := Schema.Authenticated (Some "u"%string) |}.

Definition stored_world : Process.world :=
  {| Process.document_path :=
       Upload.find_document (Schema.documents uploaded_database)
         stored_objects;
     Process.download := fun path =>
       if String.eqb path "u/notes.md" then Some fox else None;
     Process.processMarkdown := fun text => [text];
     Process.insert_error := false |}.

(** The worker, with integers for values (zero is the falsy one) and a
    copy that keeps them: a run requested too early, then an
    initialisation that goes through, then a run that is answered; a
    course of events without initialisation; and an initialisation whose
    pipeline is a falsy value. *)
Definition nonzero (v : Z) : bool := negb (v =? 0)%Z.

Definition session : list (Worker.action Z) :=
  [Worker.Deliver (Worker.Run 1 10);
   Worker.Deliver (Worker.Init 20);
   Worker.Settle 0 (Worker.Fulfilled 30);
   Worker.Settle 0 (Worker.Fulfilled 30);
   Worker.Callback 0 50;
   Worker.Settle 0 (Worker.Fulfilled 40);
   Worker.Settle 0 (Worker.Fulfilled 0);
   Worker.Deliver (Worker.Run 2 10);
   Worker.Settle 0 (Worker.Fulfilled 60)]%Z.

Definition early_runs : list (Worker.action Z) :=
  [Worker.Deliver (Worker.Run 1 10);
   Worker.Settle 0 (Worker.Rejected 70);
   Worker.Deliver (Worker.Run 2 10)]%Z.

Definition falsy_pipeline : list (Worker.action Z) :=
  [Worker.Deliver (Worker.Init 20);
   Worker.Settle 0 (Worker.Fulfilled 30);
   Worker.Settle 0 (Worker.Fulfilled 30);
   Worker.Settle 0 (Worker.Fulfilled 0);
   Worker.Settle 0 (Worker.Fulfilled 30);
   Worker.Deliver (Worker.Run 2 10)]%Z.

End Cases.

(** ** Properties of the string operations *)

Module JsFacts.
Import Js.

Lemma replace_all_skipn (m : matcher) (s : jsstring) (k : nat) :
  k <= length s -> replace_all m k s = replace_all m 0 (skipn k s).
Proof.
  revert k. induction s as [|c t IH]; intros [|k] Hk; simpl in *; try reflexivity; try lia.
  apply IH. lia.
Qed.

Lemma replace_all_Forall (P Q : code_unit -> Prop) (m : matcher) :
  (forall s n rep, m s = Some (n, rep) -> Forall Q rep) ->
  (forall c t, P c ->
     match m (c :: t) with Some (S _, _) => True | _ => Q c end) ->
  forall s skip, Forall P s -> Forall Q (replace_all m skip s).
Proof.
  intros Hrep Hcopy. induction s as [|c t IH]; intros skip HP; simpl.
  - destruct skip; [|constructor].
    destruct (m []) as [[n rep]|] eqn:E; [eauto | constructor].
  - inversion HP as [|? ? Hc Ht]; subst.
    destruct skip as [|k]; [|auto].
    specialize (Hcopy c t Hc).
    destruct (m (c :: t)) as [[[|n] rep]|] eqn:E.
    + apply Forall_app; split; [eauto|]. constructor; auto.
    + apply Forall_app; split; eauto.
    + constructor; auto.
Qed.

Lemma replace_all_no_match (m : matcher) (s : jsstring) :
  m [] = None -> (forall c t, c ∈ s -> m (c :: t) = None) ->
  replace_all m 0 s = s.
Proof.
  intros Hnil. induction s as [|c t IH]; intros H; simpl.
  - rewrite Hnil. reflexivity.
  - rewrite (H c t) by constructor. f_equal. apply IH.
    intros d u Hd. apply H. by constructor.
Qed.

(** For a bounded pattern the scan is the familiar recursion: at a match,
    the replacement followed by the scan of what comes after the match;
    otherwise the first code unit followed by the scan of the rest. *)
Lemma replace_unfold (m : matcher) (s : jsstring) :
  bounded m ->
  replace m s =
    match m s with
    | Some (n, rep) => rep ++ replace m (skipn n s)
    | None => match s with
              | [] => []
              | c :: t => c :: replace m t
              end
    end.
Proof.
  intros Hm. unfold replace. destruct s as [|c t]; simpl.
  - destruct (m []) as [[n rep]|] eqn:E; [|reflexivity].
    apply Hm in E. simpl in E. lia.
  - destruct (m (c :: t)) as [[[|n] rep]|] eqn:E; [| |reflexivity].
    + apply Hm in E. lia.
    + apply Hm in E. simpl in E. by rewrite replace_all_skipn by lia.
Qed.

Lemma run_length_le p s : run_length p s <= length s.
Proof. induction s as [|c t IH]; simpl; [lia|]. destruct (p c); simpl; lia. Qed.

Lemma skipn_run_length_head p s c t :
  skipn (run_length p s) s = c :: t -> p c = false.
Proof.
  induction s as [|d u IH]; simpl; [discriminate|].
  destruct (p d) eqn:E; simpl; [exact IH|].
  intros [= -> _]. exact E.
Qed.

Lemma drop_while_suffix p s : exists pre, s = pre ++ drop_while p s.
Proof.
  induction s as [|c t [pre IH]]; simpl.
  - by exists [].
  - destruct (p c).
    + exists (c :: pre). simpl. by f_equal.
    + by exists [].
Qed.

Lemma trim_infix s : exists pre post, s = pre ++ trim s ++ post.
Proof.
  unfold trim.
  destruct (drop_while_suffix is_space s) as [pre Hpre].
  destruct (drop_while_suffix is_space (rev (drop_while is_space s))) as [post Hpost].
  exists pre, (rev post).
  rewrite <- rev_app_distr, <- Hpost, rev_involutive. exact Hpre.
Qed.

End JsFacts.

(** ** Properties of the sanitizer *)

Module SanitizerFacts.
Import Js Sanitizer JsFacts.

Lemma is_space_SP : is_space SP = true.
Proof. reflexivity. Qed.

(** The patterns of the handler are bounded. *)
Lemma re_crlf_bounded : bounded re_crlf.
Proof.
  intros [|c [|d t]] n rep; simpl; try discriminate.
  destruct ((c =? CR) && (d =? LF))%N; intros [= <- <-]. lia.
Qed.

Lemma re_cr_bounded : bounded re_cr.
Proof.
  intros [|c t] n rep; simpl; [discriminate|].
  destruct (c =? CR)%N; intros [= <- <-]. lia.
Qed.

Lemma re_link_bounded : bounded re_link.
Proof.
  intros [|c t] n rep; simpl; [discriminate|].
  destruct (c =? 91)%N; [|discriminate].
  destruct (skipn (run_length (neq 93%N) t) t) as [|x [|p r]] eqn:Et;
    try discriminate.
  destruct (p =? 40)%N; [|discriminate].
  destruct (skipn (run_length (neq 41%N) r) r) as [|y u] eqn:Er;
    intros [= <- <-].
  apply (f_equal length) in Et, Er. rewrite length_skipn in Et, Er.
  simpl in Et, Er. lia.
Qed.

Lemma re_delimited_bounded opening closing : bounded (re_delimited opening closing).
Proof.
  intros [|c t] n rep; simpl; [discriminate|].
  destruct (c =? opening)%N; [|discriminate].
  destruct (skipn (run_length (neq closing) t) t) as [|x u] eqn:Et;
    intros [= <- <-].
  apply (f_equal length) in Et. rewrite length_skipn in Et.
  simpl in Et. lia.
Qed.

Lemma re_not_keepable_bounded : bounded re_not_keepable.
Proof.
  intros [|c t] n rep; simpl; [discriminate|].
  destruct (keepable c); intros [= <- <-]. lia.
Qed.

Lemma re_format_char_bounded : bounded re_format_char.
Proof.
  intros [|c t] n rep; simpl; [discriminate|].
  destruct (is_format_char c); intros [= <- <-]. lia.
Qed.

Lemma re_run_bounded p : bounded (re_run p).
Proof.
  intros [|c t] n rep; simpl; [discriminate|].
  destruct (p c); intros [= <- <-]. pose proof (run_length_le p t). lia.
Qed.

Lemma keepable_not_space c :
  keepable c = true -> is_space c = false -> printable c.
Proof.
  unfold keepable, is_space, printable, LF. intros Hk Hs.
  destruct (N.leb_spec 32 c), (N.leb_spec c 126), (N.eqb_spec c 10);
    simpl in Hk; try discriminate; try lia.
  subst c. discriminate.
Qed.

Lemma printable_not_LF c : printable c -> (c =? LF)%N = false.
Proof. unfold printable, LF. intros H. apply N.eqb_neq. lia. Qed.

Lemma printable_SP : printable SP.
Proof. unfold printable, SP. lia. Qed.

Lemma drop_nonprintable_keepable s :
  Forall (fun c => keepable c = true) (drop_nonprintable s).
Proof.
  apply (replace_all_Forall (fun _ => True)); [| |by apply Forall_forall].
  - intros [|c t] n rep; simpl; [discriminate|].
    destruct (keepable c); intros [= <- <-]; constructor.
  - intros c t _. simpl. destruct (keepable c) eqn:E; auto.
Qed.

Lemma strip_format_chars_keepable s :
  Forall (fun c => keepable c = true) s ->
  Forall (fun c => keepable c = true) (strip_format_chars s).
Proof.
  apply replace_all_Forall.
  - intros [|c t] n rep; simpl; [discriminate|].
    destruct (is_format_char c); intros [= <- <-]; constructor.
  - intros c t Hc. simpl. destruct (is_format_char c); auto.
Qed.

Lemma collapse_spaces_printable s :
  Forall (fun c => keepable c = true) s ->
  Forall printable (replace (re_run is_space) s).
Proof.
  apply replace_all_Forall.
  - intros [|c t] n rep; simpl; [discriminate|].
    destruct (is_space c); intros [= <- <-].
    constructor; [apply printable_SP | constructor].
  - intros c t Hc. simpl. destruct (is_space c) eqn:E; [trivial|].
    by apply keepable_not_space.
Qed.

Lemma collapse_newlines_id s :
  Forall printable s -> replace (re_run (fun c => (c =? LF)%N)) s = s.
Proof.
  intros H. apply replace_all_no_match; [reflexivity|].
  intros c t Hc. simpl. rewrite Forall_forall in H.
  by rewrite printable_not_LF by auto.
Qed.

Lemma strip_format_chars_drop_nonprintable s :
  strip_format_chars (drop_nonprintable s)
  = drop_nonprintable (strip_format_chars s).
Proof.
  unfold strip_format_chars, drop_nonprintable, replace.
  induction s as [|c t IH]; [reflexivity|]. simpl.
  destruct (keepable c) eqn:Ek, (is_format_char c) eqn:Ef;
    repeat (progress (simpl; rewrite ?Ek, ?Ef)); congruence.
Qed.

Lemma single_spaced_app_l a b : single_spaced (a ++ b) -> single_spaced a.
Proof.
  induction a as [|x a IH]; simpl; [trivial|].
  intros [H1 H2]. split; [|auto].
  intros Hx. specialize (H1 Hx). destruct a; simpl in *; congruence.
Qed.

Lemma single_spaced_app_r a b : single_spaced (a ++ b) -> single_spaced b.
Proof. induction a as [|x a IH]; simpl; [trivial|]. intros [_ H]. auto. Qed.

Lemma collapse_spaces_head c t :
  is_space c = false -> head (replace (re_run is_space) (c :: t)) = Some c.
Proof. intros H. unfold replace. simpl. by rewrite H. Qed.

Lemma collapse_spaces_single_spaced s :
  single_spaced (replace (re_run is_space) s).
Proof.
  remember (length s) as n eqn:Hn.
  revert s Hn. induction (lt_wf n) as [n _ IH]. intros [|c t] ->; [exact I|].
  unfold replace. simpl. destruct (is_space c) eqn:Ec.
  - rewrite replace_all_skipn by apply run_length_le. simpl.
    split.
    + intros _. destruct (skipn (run_length is_space t) t) as [|d r] eqn:Er; [discriminate|].
      fold (replace (re_run is_space) (d :: r)).
      rewrite collapse_spaces_head by eauto using skipn_run_length_head.
      intros [= ->]. apply skipn_run_length_head in Er. discriminate.
    + eapply IH; [|reflexivity]. simpl. rewrite length_skipn. lia.
  - split.
    + intros ->. discriminate.
    + eapply IH; [|reflexivity]. simpl. lia.
Qed.

End SanitizerFacts.

Module SanitizerProps.
Import Js Sanitizer JsFacts SanitizerFacts.

Lemma cleanContent_stages content :
  cleanContent content =
  truncate (trim (collapse_whitespace (strip_format_chars
    (drop_nonprintable (strip_markdown (normalize_line_endings content)))))).
Proof. reflexivity. Qed.

Lemma collapse_whitespace_spec s :
  Forall (fun c => keepable c = true) s ->
  Forall printable (collapse_whitespace s) /\ single_spaced (collapse_whitespace s).
Proof.
  intros H. unfold collapse_whitespace.
  pose proof (collapse_spaces_printable s H) as Hp.
  rewrite collapse_newlines_id by exact Hp.
  split; [exact Hp | apply collapse_spaces_single_spaced].
Qed.

Lemma trim_spec s :
  Forall printable s -> single_spaced s ->
  Forall printable (trim s) /\ single_spaced (trim s).
Proof.
  destruct (trim_infix s) as (pre & post & E). intros Hp Hs.
  rewrite E in Hp, Hs. split.
  - apply Forall_app in Hp as [_ Hp]. by apply Forall_app in Hp as [Hp _].
  - eapply single_spaced_app_l, single_spaced_app_r, Hs.
Qed.

Lemma truncate_spec s :
  Forall printable s -> single_spaced s ->
  length (truncate s) <= max_length /\
  Forall printable (truncate s) /\ single_spaced (truncate s).
Proof.
  intros Hp Hs. unfold truncate, substring0.
  destruct (Nat.ltb_spec max_length (length s)).
  - split; [rewrite length_firstn; lia|]. split.
    + by apply Forall_take.
    + apply (single_spaced_app_l _ (skipn max_length s)).
      by rewrite firstn_skipn.
  - auto.
Qed.

End SanitizerProps.

Module SanitizerExamples.
Import Js Sanitizer.

Example scenario_link_and_emphasis :
  cleanContent (of_ascii "[click here](http://x) *bold*") = of_ascii "click here bold".
Proof. vm_compute. reflexivity. Qed.

Example crlf_and_tabs :
  cleanContent ([104; 105; CR; LF; 9; 9; 233; 119; 111; CR; 33; LF; LF]%N)
  = of_ascii "hi wo !".
Proof. vm_compute. reflexivity. Qed.

Example unclosed_bracket_kept :
  cleanContent (of_ascii "a [b (c d) e") = of_ascii "a [b e".
Proof. vm_compute. reflexivity. Qed.

End SanitizerExamples.

(** ** Properties of the embedding endpoint *)

Module EmbedProps.
Import Js Sanitizer Http Embed.

Section Props.
Context {num : Type} (zero : num).
Implicit Types (w : world num) (db : gmap Z (section_row num)).
Implicit Types (row : Z * option jsstring) (evs : list (event num)).

Lemma normalize_output_length (output : list num) :
  length (normalize_output zero output) = 1024.
Proof.
  unfold normalize_output.
  destruct (Nat.eqb_spec (length output) 1024) as [E|E]; simpl; [exact E|].
  destruct (Nat.ltb_spec 1024 (length output)).
  - rewrite length_firstn. lia.
  - rewrite length_app, repeat_length. lia.
Qed.

Lemma row_events_app id evs evs' :
  row_events id (evs ++ evs') = row_events id evs ++ row_events id evs'.
Proof. apply filter_app. Qed.

Lemma row_events_all id evs :
  Forall (fun ev => event_row ev = Some id) evs -> row_events id evs = evs.
Proof.
  induction 1 as [|ev evs H _ IH]; [reflexivity|].
  unfold row_events in *. rewrite filter_cons_True by exact H. by f_equal.
Qed.

Lemma row_events_none id id' evs :
  id <> id' ->
  Forall (fun ev => event_row ev = Some id') evs -> row_events id evs = [].
Proof.
  intros Hne. induction 1 as [|ev evs H _ IH]; [reflexivity|].
  unfold row_events in *. rewrite filter_cons_False by congruence. exact IH.
Qed.

(** Every effect of the retry loop carries the id of its row. *)
Lemma retry_loop_events_row w id text n :
  Forall (fun ev => event_row ev = Some id) (retry_loop zero w id text n).1.
Proof.
  induction n as [|n IH]; simpl; [constructor|].
  destruct (retry_loop zero w id text n) as [later exit]. simpl in IH.
  destruct (attempt w id (maxRetries - S n) text); simpl;
    repeat case_match; simplify_eq; simpl;
    repeat first [ apply Forall_nil_2
                 | apply Forall_cons_2; [reflexivity|]
                 | assumption ].
Qed.

(** The retry loop, read off its trace: [seq 0 n] are the attempts made,
    the back-off delays are the first [n - 1] of 3000 and 6000, and the exit
    tells which attempt returned, if any. *)
Lemma retry_loop_spec w id text :
  let r := retry_loop zero w id text maxRetries in
  exists n, 1 <= n <= 3 /\
    sessions r.1 = seq 0 n /\
    length (runs r.1) <= n /\
    backoffs r.1 = firstn (n - 1) [3000; 6000]%N /\
    timeline r.1 = firstn (2 * n - 1) full_timeline /\
    updates r.1 = [] /\
    (forall j, j < n - 1 -> fails (attempt w id j text)) /\
    match r.2 with
    | Broke output =>
        exists v, attempt w id (n - 1) text = RunReturns v /\
                  output = normalize_output zero v
    | Rethrown => n = 3 /\ fails (attempt w id 2 text)
    | ConditionFalse => False
    end.
Proof.
  assert (forall P : nat -> Prop, P 0 -> forall j, j < 1 -> P j) as below1
    by (intros P H0 j Hj; by replace j with 0 by lia).
  assert (forall P : nat -> Prop, P 0 -> P 1 -> forall j, j < 2 -> P j) as below2.
  { intros P H0 H1 j Hj. assert (j = 0 \/ j = 1) as [->| ->] by lia; done. }
  cbn. destruct (attempt w id 0 text) eqn:E0.
  3: { exists 1. cbn. rewrite E0. repeat split; eauto; lia. }
  all: destruct (attempt w id 1 text) eqn:E1.
  3,6: exists 2; cbn; rewrite E1; repeat split; eauto; try lia;
       apply below1; by rewrite E0.
  all: destruct (attempt w id 2 text) eqn:E2.
  all: exists 3; cbn; rewrite ?E2; repeat split; eauto; try lia;
       apply below2; by rewrite ?E0, ?E1.
Qed.

Local Arguments retry_loop : simpl never.
Local Arguments cleanContent : simpl never.

Lemma update_embedding_other id k value db :
  k <> id -> update_embedding id value db !! k = db !! k.
Proof.
  intros H. destruct value; simpl; [|reflexivity].
  by rewrite lookup_alter_ne.
Qed.

Lemma update_embedding_same id value db db0 :
  db !! id = db0 !! id ->
  update_embedding id value db !! id = update_embedding id value db0 !! id.
Proof.
  intros H. destruct value; simpl; [|exact H].
  by rewrite !lookup_alter_eq, H.
Qed.

(** Processing a row is, uniformly in the table, a list of effects of that
    row followed by nothing or by one update of its embedding. *)
Lemma process_row_effect w row :
  exists evs (f : gmap Z (section_row num) -> gmap Z (section_row num)),
    (forall db, process_row zero w db row = (evs, f db)) /\
    Forall (fun ev => event_row ev = Some row.1) evs /\
    ((forall db, f db = db) \/
     exists value, forall db, f db = update_embedding row.1 value db).
Proof.
  unfold process_row, persist. destruct row as [id [[|c0 c]|]]; simpl.
  1, 3: exists [], (fun db => db); by auto.
  destruct (length (cleanContent (c0 :: c)) <? 10).
  { exists [], (fun db => db). by auto. }
  pose proof (retry_loop_events_row w id (cleanContent (c0 :: c)) maxRetries)
    as Hev.
  destruct (retry_loop zero w id (cleanContent (c0 :: c)) maxRetries)
    as [evs [|output|]]; simpl in Hev.
  - exists evs, (fun db => db). by auto.
  - destruct (update_error w id (Some output)).
    + exists (evs ++ [EvUpdate id (Some output)]), (fun db => db).
      split; [done|]. split; [|by left].
      apply Forall_app_2; [done | by repeat constructor].
    + exists (evs ++ [EvUpdate id (Some output)]),
        (update_embedding id (Some output)).
      split; [done|]. split; [|right; by exists (Some output)].
      apply Forall_app_2; [done | by repeat constructor].
  - exists (evs ++ [EvUpdate id None]), (fun db => db).
    split; [intros db; by destruct (update_error w id None)|].
    split; [|by left].
    apply Forall_app_2; [done | by repeat constructor].
Qed.

Lemma process_row_events_row w db row :
  Forall (fun ev => event_row ev = Some row.1) (process_row zero w db row).1.
Proof.
  destruct (process_row_effect w row) as (evs & f & E & H & _).
  by rewrite E.
Qed.

Lemma process_row_events_indep w db db0 row :
  (process_row zero w db row).1 = (process_row zero w db0 row).1.
Proof.
  destruct (process_row_effect w row) as (evs & f & E & _).
  by rewrite !E.
Qed.

Lemma process_row_other w db row k :
  k <> row.1 -> (process_row zero w db row).2 !! k = db !! k.
Proof.
  intros Hk.
  destruct (process_row_effect w row) as (evs & f & E & _ & [H|[v H]]);
    rewrite E; simpl; rewrite H; [reflexivity|].
  by apply update_embedding_other.
Qed.

Lemma process_row_same w db db0 row :
  db !! row.1 = db0 !! row.1 ->
  (process_row zero w db row).2 !! row.1
  = (process_row zero w db0 row).2 !! row.1.
Proof.
  intros Hrow.
  destruct (process_row_effect w row) as (evs & f & E & _ & [H|[v H]]);
    rewrite !E; simpl; rewrite !H; [exact Hrow|].
  by apply update_embedding_same.
Qed.

Lemma process_rows_absent w rows db id :
  id ∉ rows.*1 ->
  row_events id (process_rows zero w rows db).1 = [] /\
  (process_rows zero w rows db).2 !! id = db !! id.
Proof.
  revert db. induction rows as [|row rest IH]; intros db Hid; simpl; [done|].
  apply not_elem_of_cons in Hid as [Hne Hid].
  pose proof (process_row_events_row w db row) as Hev.
  pose proof (process_row_other w db row id Hne) as Hdb.
  destruct (process_row zero w db row) as [evs db1]; simpl in *.
  destruct (IH db1 Hid) as [IH1 IH2].
  destruct (process_rows zero w rest db1) as [evs' db2]; simpl in *.
  rewrite row_events_app, IH1, (row_events_none _ _ _ Hne Hev), IH2. done.
Qed.

Lemma process_rows_member w rows db row :
  NoDup rows.*1 -> row ∈ rows ->
  row_events row.1 (process_rows zero w rows db).1 = (process_row zero w db row).1 /\
  (process_rows zero w rows db).2 !! row.1 = (process_row zero w db row).2 !! row.1.
Proof.
  revert db. induction rows as [|r rest IH]; intros db Hnd Hin; [by apply elem_of_nil in Hin|].
  simpl in Hnd. apply NoDup_cons in Hnd as [Hfresh Hnd].
  apply elem_of_cons in Hin as [->|Hin]; simpl.
  - pose proof (process_row_events_row w db r) as Hev.
    destruct (process_row zero w db r) as [evs db1]; simpl in *.
    destruct (process_rows_absent w rest db1 r.1 Hfresh) as [H1 H2].
    destruct (process_rows zero w rest db1) as [evs' db2]; simpl in *.
    rewrite row_events_app, H1, app_nil_r, H2. split; [|done].
    by apply row_events_all.
  - assert (row.1 <> r.1) as Hne.
    { intros E. apply Hfresh. rewrite <- E. by apply list_elem_of_fmap_2. }
    pose proof (process_row_events_row w db r) as Hev.
    pose proof (process_row_other w db r row.1 Hne) as Hdb.
    destruct (process_row zero w db r) as [evs db1]; simpl in *.
    destruct (IH db1 Hnd Hin) as [IH1 IH2].
    destruct (process_rows zero w rest db1) as [evs' db2]; simpl in *.
    rewrite row_events_app, (row_events_none _ _ _ Hne Hev), IH1, IH2. simpl.
    split; [apply process_row_events_indep|]. by apply process_row_same.
Qed.


Lemma select_rows_ids ids db :
  (select_rows ids db).*1 = (filter (unembedded ids) (map_to_list db)).*1.
Proof. unfold select_rows. by rewrite <- list_fmap_compose. Qed.

Lemma select_rows_NoDup ids db : NoDup (select_rows ids db).*1.
Proof.
  rewrite select_rows_ids.
  eapply sublist_NoDup; [apply (NoDup_fst_map_to_list db)|].
  apply fmap_sublist, sublist_filter.
Qed.

Lemma elem_of_select_rows ids db id c :
  (id, c) ∈ select_rows ids db <->
  exists r, db !! id = Some r /\ id ∈ ids /\ embedding r = None /\ c = content r.
Proof.
  unfold select_rows. rewrite list_elem_of_fmap. split.
  - intros ([k r] & [= -> ->] & H). apply list_elem_of_filter in H as [[H1 H2] H].
    apply elem_of_map_to_list in H. eauto.
  - intros (r & H & H1 & H2 & ->). exists (id, r). split; [done|].
    apply list_elem_of_filter. split; [done|]. by apply elem_of_map_to_list.
Qed.

Lemma select_rows_skips ids db id :
  (id ∉ ids \/ embedding <$> db !! id <> Some None) -> id ∉ (select_rows ids db).*1.
Proof.
  intros H Hin. apply list_elem_of_fmap in Hin as ([k c] & -> & Hin).
  apply elem_of_select_rows in Hin as (r & Hr & Hid & He & _). simpl in *.
  destruct H as [H|H]; [done|]. rewrite Hr in H. simpl in H. congruence.
Qed.

(** Past its guards the handler answers 204 whatever happens to the rows. *)
Lemma handler_started e w req db :
  preflight req = false -> configured e = true ->
  truthy (authorization req) = true -> select_error w = false ->
  handler zero e w req db =
    (no_content,
     EvCreateClient :: EvSelect (ids req)
       :: (process_rows zero w (select_rows (ids req) db) db).1,
     (process_rows zero w (select_rows (ids req) db) db).2).
Proof.
  unfold handler, preflight, configured. intros -> Hc -> ->.
  apply andb_true_iff in Hc as [-> ->]. simpl.
  by destruct (process_rows zero w (select_rows (ids req) db) db).
Qed.

(** Every row is left alone or processed on its own: the effects of a
    selected row within the batch, and its state afterwards, are those of
    processing that row alone; a row that is not selected has no effect and
    keeps its state. *)
Lemma handler_selected e w req db id c :
  preflight req = false -> configured e = true ->
  truthy (authorization req) = true -> select_error w = false ->
  (id, c) ∈ select_rows (ids req) db ->
  row_events id (effects zero e w req db) = (process_row zero w db (id, c)).1 /\
  table_after zero e w req db !! id = (process_row zero w db (id, c)).2 !! id.
Proof.
  intros Hp He Ha Hs Hin. unfold effects, table_after.
  rewrite handler_started by done. simpl.
  apply (process_rows_member w _ db (id, c) (select_rows_NoDup _ _) Hin).
Qed.

Lemma handler_not_selected e w req db id :
  id ∉ (select_rows (ids req) db).*1 ->
  row_events id (effects zero e w req db) = [] /\
  table_after zero e w req db !! id = db !! id.
Proof.
  intros Hid. unfold effects, table_after, handler.
  repeat (case_match; simpl; try done).
  match goal with H : process_rows _ _ _ _ = _ |- _ => rename H into E end.
  pose proof (process_rows_absent w _ db id Hid) as Habs. by rewrite E in Habs.
Qed.

(** C2.  The normalisation step returns exactly 1024 entries: a longer
    output is cut to its first 1024 entries, a shorter one is followed by
    zeros, and a 384-entry output becomes its 384 values followed by 640
    zeros. *)
Theorem normalize_output_pads_or_truncates (output : list num) :
  length (normalize_output zero output) = 1024 /\
  (1024 < length output ->
     normalize_output zero output = firstn 1024 output) /\
  (length output < 1024 ->
     normalize_output zero output
       = output ++ repeat zero (1024 - length output)) /\
  (length output = 384 ->
     normalize_output zero output = output ++ repeat zero 640).
Proof.
  split; [apply normalize_output_length|].
  unfold normalize_output.
  destruct (Nat.eqb_spec (length output) 1024) as [E|E],
           (Nat.ltb_spec 1024 (length output)) as [L|L]; simpl;
    repeat split; intros H; try lia; try reflexivity.
  by rewrite H.
Qed.

Lemma process_row_usable w db id c :
  min_length <= length (cleanContent c) ->
  process_row zero w db (id, Some c) =
    let r := retry_loop zero w id (cleanContent c) maxRetries in
    match r.2 with
    | Rethrown => (r.1, db)
    | Broke output =>
        (r.1 ++ [EvUpdate id (Some output)],
         if update_error w id (Some output) then db
         else update_embedding id (Some output) db)
    | ConditionFalse =>
        (r.1 ++ [EvUpdate id None],
         if update_error w id None then db else db)
    end.
Proof.
  unfold min_length, process_row, persist. intros H. simpl.
  destruct c as [|c0 c]; [vm_compute in H; lia|].
  destruct (Nat.ltb_spec (length (cleanContent (c0 :: c))) 10); [lia|].
  by destruct (retry_loop zero w id (cleanContent (c0 :: c)) maxRetries) as [evs [| |]].
Qed.

Lemma process_row_short w db id c :
  length (cleanContent c) < min_length ->
  process_row zero w db (id, Some c) = ([], db).
Proof.
  unfold min_length, process_row. intros H. simpl.
  destruct c as [|c0 c]; [reflexivity|].
  by destruct (Nat.ltb_spec (length (cleanContent (c0 :: c))) 10); [|lia].
Qed.

Lemma runs_app evs evs' : runs (evs ++ evs') = runs evs ++ runs evs'.
Proof. apply omap_app. Qed.
Lemma updates_app evs evs' : updates (evs ++ evs') = updates evs ++ updates evs'.
Proof. apply omap_app. Qed.





(** The answer is decided by the guards alone. *)
Lemma answer_cases e w req db :
  answer zero e w req db =
    if preflight req then preflight_response
    else if negb (configured e) then
      error_response "Missing environment variables."
    else if negb (truthy (authorization req)) then
      error_response "No authorization header passed"
    else if select_error w then {| status := 500; payload := BodyQueryError |}
    else no_content.
Proof.
  unfold answer, handler, preflight, configured.
  destruct (String.eqb (method req) "OPTIONS"); [done|].
  destruct (truthy (SUPA_URL e)), (truthy (SUPA_ANON_KEY e)); try done.
  destruct (truthy (authorization req)); [|done].
  destruct (select_error w); [done|]. simpl.
  by destruct (process_rows zero w (select_rows (ids req) db) db).
Qed.

(** Without a usable Authorization header, and for a preflight, the handler
    returns before it creates its database client. *)
Lemma handler_returns_early e w req db :
  preflight req = true \/ truthy (authorization req) = false ->
  effects zero e w req db = [] /\ table_after zero e w req db = db.
Proof.
  unfold effects, table_after, handler, preflight.
  intros [-> | ->]; [done|].
  destruct (String.eqb (method req) "OPTIONS"); [done|].
  by destruct (negb (truthy (SUPA_URL e)) || negb (truthy (SUPA_ANON_KEY e))).
Qed.

(** C6, as the code has it.  A row whose embedding is already set is not
    selected, whatever the request lists: the batch has no effect that
    concerns it (no model run, no update) and leaves it as it was. *)
Theorem embedded_row_left_alone e w req db id r :
  db !! id = Some r -> embedding r <> None ->
  row_events id (effects zero e w req db) = [] /\
  table_after zero e w req db !! id = Some r.
Proof.
  intros Hr He. rewrite <- Hr.
  apply handler_not_selected, select_rows_skips.
  right. rewrite Hr. simpl. by intros [= E].
Qed.

(** C7.  A row that holds an embedding after one run of the batch holds the
    same embedding after any further run, whatever that run is asked and
    whatever the model then answers. *)
Theorem second_run_keeps_embedding e w req e' w' req' db id v :
  embedding <$> table_after zero e w req db !! id = Some (Some v) ->
  embedding <$> table_after zero e' w' req' (table_after zero e w req db) !! id
    = Some (Some v).
Proof.
  intros H.
  destruct (handler_not_selected e' w' req' (table_after zero e w req db) id)
    as [_ ->]; [|exact H].
  apply select_rows_skips. right. rewrite H. discriminate.
Qed.

(** C8.  A row whose cleaned content is shorter than 10 code units is
    skipped before any session is created: the batch has no effect that
    concerns it, no model run and no update, and the row stays as it was. *)
Theorem short_content_skipped e w req db id r c :
  db !! id = Some r -> content r = Some c ->
  length (cleanContent c) < min_length ->
  row_events id (effects zero e w req db) = [] /\
  table_after zero e w req db !! id = Some r.
Proof.
  intros Hr Hc Hlen. rewrite <- Hr.
  destruct (decide (id ∈ (select_rows (ids req) db).*1)) as [Hin|Hout];
    [|by apply handler_not_selected].
  apply list_elem_of_fmap in Hin as ([k c'] & -> & Hin). simpl in *.
  pose proof Hin as (r' & Hr' & _ & _ & ->)%elem_of_select_rows.
  assert (r' = r) as -> by congruence. rewrite Hc in Hin.
  unfold effects, table_after, handler.
  repeat (case_match; simpl; try done).
  match goal with H : process_rows _ _ _ _ = _ |- _ => rename H into E end.
  pose proof (process_rows_member w _ db (k, Some c)
                (select_rows_NoDup _ _) Hin) as Hrow.
  rewrite E, process_row_short in Hrow by exact Hlen. exact Hrow.
Qed.


(** Whatever the model returns, a value handed to [update] has 1024
    entries. *)
Lemma process_row_updates w db row :
  updates (process_row zero w db row).1 = [] \/
  exists output,
    updates (process_row zero w db row).1 = [Some (normalize_output zero output)].
Proof.
  destruct row as [id [c|]]; [|by left].
  destruct (Nat.lt_ge_cases (length (cleanContent c)) min_length) as [Hlt|Hge].
  { left. by rewrite process_row_short. }
  rewrite process_row_usable by exact Hge. cbv zeta.
  destruct (retry_loop_spec w id (cleanContent c))
    as (n & _ & _ & _ & _ & _ & Hu & _ & Hexit).
  destruct (retry_loop zero w id (cleanContent c) maxRetries) as [evs exit].
  simpl in *. destruct exit as [|out|]; [by left| |done].
  destruct Hexit as (v & _ & ->). right. exists v. simpl.
  by rewrite updates_app, Hu.
Qed.

Lemma handler_update_width e w req db v :
  Some v ∈ updates (effects zero e w req db) -> length v = 1024.
Proof.
  assert (forall rows db0,
    Some v ∈ updates (process_rows zero w rows db0).1 -> length v = 1024)
    as batch.
  { induction rows as [|row rest IH]; intros db0; simpl.
    - by intros H%elem_of_nil.
    - pose proof (process_row_updates w db0 row) as Hrow.
      destruct (process_row zero w db0 row) as [evs db1].
      specialize (IH db1).
      destruct (process_rows zero w rest db1) as [evs' db2]. simpl in *.
      rewrite updates_app, elem_of_app. intros [Hin|Hin]; [|auto].
      destruct Hrow as [Hrow|[output Hrow]]; rewrite Hrow in Hin.
      + by apply elem_of_nil in Hin.
      + apply list_elem_of_singleton in Hin as [= ->].
        apply normalize_output_length. }
  unfold effects, handler.
  repeat (case_match; simpl; try by intros ?%elem_of_nil).
  match goal with H : process_rows _ _ _ _ = _ |- _ => rename H into E end.
  specialize (batch (select_rows (ids req) db) db). by rewrite E in batch.
Qed.

(** C1.  The migration declares the embedding column 384 wide, and the
    handler says it pads to match the schema; yet every value the handler
    writes, for any row of any run, has 1024 entries and so never the width
    of the column. *)
Theorem written_width_is_not_the_column_width e w req db (v : list num) :
  Some v ∈ updates (effects zero e w req db) ->
  length v = 1024 /\ length v <> Schema.embedding_dimensions.
Proof.
  intros written. apply handler_update_width in written.
  split; [exact written|].
  rewrite written. unfold Schema.embedding_dimensions. lia.
Qed.

End Props.

(** *** The endpoint on concrete inputs *)

Import Sample.

(** On the 384-entry output of gte-small: the one value written is the
    output followed by 640 zeros. *)
Lemma written_width_is_not_the_column_width_witness :
  updates (effects 0%Z env_set steady batch_request pending_table)
    = [Some (native_output ++ repeat 0%Z 640)] /\
  length (native_output ++ repeat 0%Z 640) = 1024 /\
  length (native_output ++ repeat 0%Z 640) <> Schema.embedding_dimensions.
Proof.
  split; [vm_compute; reflexivity|].
  apply (written_width_is_not_the_column_width 0%Z env_set steady
           batch_request pending_table).
  vm_compute. apply list_elem_of_here.
Defined.

Lemma normalize_output_pads_or_truncates_witness :
  length native_output = 384 /\
  normalize_output 0%Z native_output = native_output ++ repeat 0%Z 640.
Proof.
  split; [reflexivity|].
  destruct (normalize_output_pads_or_truncates 0%Z native_output)
    as (_ & _ & _ & padded).
  apply padded. reflexivity.
Defined.



Lemma embedded_row_left_alone_witness :
  row_events 1 (effects 0%Z env_set steady batch_request embedded_table) = [] /\
  table_after 0%Z env_set steady batch_request embedded_table !! 1%Z
    = Some {| content := Some fox; embedding := Some [5%Z; 5%Z] |}.
Proof.
  apply (embedded_row_left_alone 0%Z env_set steady batch_request
           embedded_table 1%Z).
  - reflexivity.
  - discriminate.
Defined.

Lemma second_run_keeps_embedding_witness :
  embedding <$>
    table_after 0%Z env_set third_time_lucky batch_request
      (table_after 0%Z env_set steady batch_request pending_table) !! 1%Z
  = Some (Some (normalize_output 0%Z native_output)).
Proof.
  apply (second_run_keeps_embedding 0%Z).
  vm_compute. reflexivity.
Defined.

Lemma short_content_skipped_witness :
  row_events 1 (effects 0%Z env_set steady batch_request short_table) = [] /\
  table_after 0%Z env_set steady batch_request short_table !! 1%Z
    = Some {| content := Some (of_ascii "# hi (there)"); embedding := None |}.
Proof.
  apply (short_content_skipped 0%Z env_set steady batch_request short_table
           1%Z _ (of_ascii "# hi (there)")).
  - reflexivity.
  - reflexivity.
  - vm_compute. lia.
Defined.

(** Three runs in full. *)
Example third_attempt_is_written :
  handler 0%Z env_set third_time_lucky batch_request pending_table =
    (no_content,
     [EvCreateClient; EvSelect [1%Z];
      EvSession 1 0; EvStabilise 1 1000; EvRun 1 fox; EvBackoff 1 3000;
      EvSession 1 1; EvStabilise 1 1000; EvRun 1 fox; EvBackoff 1 6000;
      EvSession 1 2; EvStabilise 1 1000; EvRun 1 fox;
      EvUpdate 1 (Some (native_output ++ repeat 0%Z 640))],
     {[ 1%Z := {| content := Some fox;
                  embedding := Some (native_output ++ repeat 0%Z 640) |} ]}).
Proof. vm_compute. reflexivity. Qed.

Example three_failures_skip_the_row :
  handler 0%Z env_set never batch_request pending_table =
    (no_content,
     [EvCreateClient; EvSelect [1%Z];
      EvSession 1 0; EvStabilise 1 1000; EvRun 1 fox; EvBackoff 1 3000;
      EvSession 1 1; EvBackoff 1 6000;
      EvSession 1 2; EvStabilise 1 1000; EvRun 1 fox],
     pending_table).
Proof. vm_compute. reflexivity. Qed.

Example rejected_write_is_swallowed :
  handler 0%Z env_set read_only batch_request pending_table =
    (no_content,
     [EvCreateClient; EvSelect [1%Z];
      EvSession 1 0; EvStabilise 1 1000; EvRun 1 fox;
      EvUpdate 1 (Some (native_output ++ repeat 0%Z 640))],
     pending_table).
Proof. vm_compute. reflexivity. Qed.

(** The sentences of the specification that the handler does not satisfy,
    each refuted on a concrete run. *)


(** C6 as stated: a listed row that already holds an embedding gets no
    update, although the model answers and the database accepts writes. *)
Lemma embedded_row_is_not_overwritten :
  ~ (forall (e : env) (w : world Z) (req : request)
            (db : gmap Z (section_row Z)) (id : Z) (r : section_row Z),
       preflight req = false -> configured e = true ->
       truthy (authorization req) = true -> select_error w = false ->
       id ∈ ids req -> db !! id = Some r -> embedding r <> None ->
       exists v, Some v ∈ updates (row_events id (effects 0%Z e w req db)) /\
                 embedding <$> table_after 0%Z e w req db !! id = Some (Some v)).
Proof.
  intros stated.
  destruct (stated env_set steady batch_request embedded_table 1%Z
              {| content := Some fox; embedding := Some [5%Z; 5%Z] |})
    as (v & written & _); try reflexivity; try discriminate.
  - apply list_elem_of_here.
  - vm_compute in written. by apply elem_of_nil in written.
Qed.

End EmbedProps.

(** ** The status of the embedding endpoint *)

Module EndpointProps.
Import Js Sanitizer Http Endpoint.

Section Props.
Context {num : Type} (zero : num) (valid_url : string -> bool).
Implicit Types (w : Embed.world num) (t : table num).
Implicit Types (db : gmap Z (Embed.section_row num)).



(** On a table of text the loop is the one of [Embed.handler] and does not
    throw; on a request whose body was read and whose URL the library
    takes, the endpoint is [Embed.handler]. *)
Lemma serve_rows_textual w selected db :
  serve_rows zero w (fun _ => None) selected db
  = (Embed.process_rows zero w selected db, false).
Proof.
  revert db. induction selected as [|row rest IH]; intros db; [done|].
  simpl. destruct (Embed.process_row zero w db row) as [evs db1].
  rewrite IH. by destruct (Embed.process_rows zero w rest db1).
Qed.

Lemma serve_handler e w req db :
  valid_url (default EmptyString (SUPA_URL e)) = true ->
  serve zero valid_url e w (parsed req) (textual db)
  = Embed.handler zero e w req db.
Proof.
  intros Hv. unfold serve, Embed.handler, preflight, Embed.preflight. simpl.
  rewrite Hv, serve_rows_textual. simpl.
  repeat case_match; simplify_eq; done.
Qed.



End Props.

(** *** The answers at work *)


(** A body that cannot be read is answered 500 after the client was
    created and before anything is selected. *)
Example unreadable_body_is_answered_500 :
  serve 0%Z Cases.any_url Sample.env_set Sample.steady
    Cases.unreadable_request Cases.mixed_table
  = (internal_error, [Embed.EvCreateClient], Cases.two_rows).
Proof. reflexivity. Qed.

(** A row whose content is a number is answered 500 in the middle of the
    batch: row 2, which the selection gives first, has its embedding by
    then, row 1 and what would follow have not. *)
Example number_content_is_answered_500 :
  let run := serve 0%Z Cases.any_url Sample.env_set Sample.steady
               Cases.both_rows_request Cases.mixed_table in
  run.1.1 = internal_error /\
  Embed.updates run.1.2 = [Some (Embed.normalize_output 0%Z Sample.native_output)] /\
  Embed.embedding <$> run.2 !! 2%Z
    = Some (Some (Embed.normalize_output 0%Z Sample.native_output)) /\
  Embed.embedding <$> run.2 !! 1%Z = Some None.
Proof. vm_compute. repeat split. Qed.

End EndpointProps.

(** ** The authorization guard of both endpoints *)

Module GuardProps.
Import Js Http Sample.

Lemma process_handler_returns_early e (w : Process.world) (req : Process.request) :
  Process.preflight req = true \/ truthy (Process.authorization req) = false ->
  (Process.handler e w req).2 = [].
Proof.
  unfold Process.handler, Process.preflight. intros [-> | ->]; [done|].
  destruct (String.eqb (Process.method req) "OPTIONS"); [done|].
  by destruct (negb (truthy (SUPA_URL e)) || negb (truthy (SUPA_ANON_KEY e))).
Qed.

Lemma process_handler_unauthorized e (w : Process.world) (req : Process.request) :
  truthy (Process.authorization req) = false ->
  (Process.handler e w req).1 =
    if Process.preflight req then preflight_response
    else if configured e then error_response "No authorization header passed"
    else error_response "Missing environment variables.".
Proof.
  unfold Process.handler, Process.preflight, configured. intros ->.
  destruct (String.eqb (Process.method req) "OPTIONS"); [done|].
  by destruct (truthy (SUPA_URL e)), (truthy (SUPA_ANON_KEY e)).
Qed.

(** C10, as the code has it.  A request without a usable Authorization
    header never reaches the database on either endpoint: no client is
    created, nothing is read and nothing is written.  A preflight is
    answered 200; otherwise, with a variable of the environment missing the
    answer is 500 with the error [Missing environment variables.], and with
    the environment set it is 500 with the error
    [No authorization header passed]. *)
Theorem unauthorized_request_stops_at_guard {num : Type} (zero : num)
    (e : env) (w : Embed.world num) (wp : Process.world)
    (req : Embed.request) (preq : Process.request)
    (db : gmap Z (Embed.section_row num)) :
  truthy (Embed.authorization req) = false ->
  truthy (Process.authorization preq) = false ->
  (Embed.effects zero e w req db = [] /\
   Embed.table_after zero e w req db = db /\
   (Process.handler e wp preq).2 = []) /\
  Embed.answer zero e w req db =
    (if Embed.preflight req then preflight_response
     else if configured e then
       error_response "No authorization header passed"
     else error_response "Missing environment variables.") /\
  (Process.handler e wp preq).1 =
    (if Process.preflight preq then preflight_response
     else if configured e then
       error_response "No authorization header passed"
     else error_response "Missing environment variables.").
Proof.
  intros He Hp. split; [|split].
  - destruct (EmbedProps.handler_returns_early zero e w req db) as [-> ->];
      [by right|].
    by rewrite process_handler_returns_early by by right.
  - rewrite EmbedProps.answer_cases, He.
    by destruct (Embed.preflight req), (configured e).
  - by apply process_handler_unauthorized.
Qed.

Lemma unauthorized_request_stops_at_guard_witness :
  Embed.effects 0%Z env_set steady anonymous_batch_request pending_table = [] /\
  Embed.answer 0%Z env_set steady anonymous_batch_request pending_table
    = error_response "No authorization header passed" /\
  Process.handler env_set process_world anonymous_process_request
    = (error_response "No authorization header passed", []).
Proof.
  destruct (unauthorized_request_stops_at_guard 0%Z env_set steady
              process_world anonymous_batch_request anonymous_process_request
              pending_table)
    as ((quiet & _ & pquiet) & answered & panswered);
    [reflexivity | reflexivity |].
  split; [exact quiet|]. split; [exact answered|].
  rewrite (surjective_pairing (Process.handler _ _ _)).
  by rewrite panswered, pquiet.
Defined.

(** C10 as stated: a preflight carries no Authorization header and is
    answered 200 by both endpoints. *)
Lemma preflight_passes_without_authorization :
  ~ (forall (e : env) (w : Embed.world Z) (wp : Process.world)
            (req : Embed.request) (preq : Process.request)
            (db : gmap Z (Embed.section_row Z)),
       Embed.authorization req = None ->
       Process.authorization preq = None ->
       Embed.answer 0%Z e w req db
         = error_response "No authorization header passed" /\
       (Process.handler e wp preq).1
         = error_response "No authorization header passed").
Proof.
  intros stated.
  destruct (stated env_set steady process_world preflight_request
              process_preflight pending_table eq_refl eq_refl) as [embed _].
  discriminate embed.
Qed.

End GuardProps.

(** ** The storage trigger *)

Module SchemaProps.
Import Schema Sample.

(** C9, as the code has it.  For an event whose bucket is set and is not
    [files] the trigger returns with the database as it was: no document,
    no request.  For an event in [files], and for one whose bucket is null
    (the comparison of line 96 is then null, which [if] does not take), it
    inserts a document.  When the role that stored the object may insert
    the row, the path has a second token, the owner is set and is a user,
    it appends exactly one document, named by that token, and then queues
    exactly one POST to the processing endpoint carrying the identifier of
    that document.  Otherwise the insert is refused and the trigger
    raises: 42501 when row level security does not admit the row, else
    23502 when the second path token or the owner is missing, else 23503
    when the owner is not a user. *)
Theorem trigger_filters_by_bucket (token : string) (new : storage_object)
    (db : database) :
  (forall b, bucket_id new = Some b -> b <> "files"%string ->
     handle_storage_update token new db = Returned db) /\
  (bucket_id new = Some "files"%string \/ bucket_id new = None ->
   (forall file o,
      nth_error (path_tokens new) 1 = Some file -> owner new = Some o ->
      admitted (session db) (Some o) = true -> o ∈ users db ->
      handle_storage_update token new db =
        Returned
          {| documents := documents db ++
               [{| id := documents_identity db; name := file;
                   storage_object_id := object_id new; created_by := o |}];
             documents_identity := (documents_identity db + 1)%Z;
             http_queue := http_queue db ++
               [{| url := "http://kong:8000/functions/v1/process";
                   headers := [("Content-Type", "application/json");
                               ("Authorization", String.append "Bearer " token)]%string;
                   body_document_id := documents_identity db |}];
             users := users db;
             session := session db |}) /\
   (admitted (session db) (owner new) = false ->
    handle_storage_update token new db = Raised "42501") /\
   (admitted (session db) (owner new) = true ->
    nth_error (path_tokens new) 1 = None \/ owner new = None ->
    handle_storage_update token new db = Raised "23502") /\
   (forall file o,
      nth_error (path_tokens new) 1 = Some file -> owner new = Some o ->
      admitted (session db) (Some o) = true -> o ∉ users db ->
      handle_storage_update token new db = Raised "23503")).
Proof.
  unfold handle_storage_update, insert_document, other_bucket. split.
  - intros b -> Hb. apply String.eqb_neq in Hb. by rewrite Hb.
  - intros Hb.
    assert (match bucket_id new with
            | Some b => negb (String.eqb b "files")
            | None => false
            end = false) as -> by (by destruct Hb as [-> | ->]).
    repeat split.
    + intros file o -> -> -> Hu. cbn [negb].
      by rewrite bool_decide_eq_true_2.
    + by intros ->.
    + intros -> [-> | ->]; [reflexivity|].
      by destruct (nth_error (path_tokens new) 1).
    + intros file o -> -> -> Hu. cbn [negb].
      by rewrite bool_decide_eq_false_2.
Qed.

Lemma trigger_filters_by_bucket_witness :
  handle_storage_update "secret" avatar_upload empty_database
    = Returned empty_database /\
  (exists db, handle_storage_update "secret" file_upload empty_database
                = Returned db /\
              length (documents db) = 1 /\
              body_document_id <$> http_queue db = id <$> documents db) /\
  handle_storage_update "secret" unfiled_upload empty_database
    <> Returned empty_database /\
  handle_storage_update "secret" stranger_upload empty_database
    = Raised "42501" /\
  handle_storage_update "secret" root_upload empty_database
    = Raised "23502" /\
  handle_storage_update "secret" stranger_upload service_database
    = Raised "23503".
Proof.
  destruct (trigger_filters_by_bucket "secret" avatar_upload empty_database)
    as (skipped & _).
  destruct (trigger_filters_by_bucket "secret" file_upload empty_database)
    as (_ & files); destruct files as (created & _); [by left|].
  destruct (trigger_filters_by_bucket "secret" unfiled_upload empty_database)
    as (_ & null); destruct null as (unfiled & _); [by right|].
  destruct (trigger_filters_by_bucket "secret" stranger_upload empty_database)
    as (_ & files); destruct files as (_ & refused & _); [by left|].
  destruct (trigger_filters_by_bucket "secret" root_upload empty_database)
    as (_ & files); destruct files as (_ & _ & nameless & _); [by left|].
  destruct (trigger_filters_by_bucket "secret" stranger_upload
              service_database)
    as (_ & files); destruct files as (_ & _ & _ & unknown); [by left|].
  split; [|split; [|split; [|split; [|split]]]].
  - apply (skipped "avatars"%string); [reflexivity | discriminate].
  - eexists. split.
    + apply (created "notes.md"%string "u"%string); try reflexivity.
      apply list_elem_of_here.
    + split; reflexivity.
  - rewrite (unfiled "notes.md"%string "u"%string); try reflexivity;
      [discriminate | apply list_elem_of_here].
  - apply refused. reflexivity.
  - apply nameless; [reflexivity | left; reflexivity].
  - apply (unknown "notes.md"%string "stranger"%string); try reflexivity.
    apply (bool_decide_unpack _). vm_compute. exact I.
Defined.

(** C9 as stated: a file stored at the root of the [files] bucket has one
    path token; the insert then breaks the not-null constraint on the name,
    and the trigger leaves neither a document nor a request. *)
Lemma root_upload_creates_no_document :
  ~ (forall (token : string) (new : storage_object) (db : database),
       (bucket_id new <> Some "files"%string ->
          handle_storage_update token new db = Returned db) /\
       (bucket_id new = Some "files"%string ->
          exists doc post,
            handle_storage_update token new db =
              Returned {| documents := documents db ++ [doc];
                          documents_identity := (documents_identity db + 1)%Z;
                          http_queue := http_queue db ++ [post];
                          users := users db;
                          session := session db |} /\
            body_document_id post = id doc)).
Proof.
  intros stated.
  destruct (stated "secret"%string root_upload empty_database) as [_ files].
  destruct (files eq_refl) as (doc & post & run & _).
  discriminate run.
Qed.

End SchemaProps.

(** ** Further properties of the sanitizer *)

Module SanitizerMore.
Import Js Sanitizer JsFacts SanitizerFacts Settled Sample Cases.

(** *** Scans that shorten *)

Lemma replace_all_length (m : matcher) :
  bounded m ->
  (forall s n rep, m s = Some (n, rep) -> length rep <= n) ->
  forall s k, length (replace_all m k s) <= length s - k.
Proof.
  intros Hb Hrep. induction s as [|c t IH]; intros k; simpl.
  - destruct k; [|simpl; lia].
    destruct (m []) as [[n rep]|] eqn:E; [|simpl; lia].
    apply Hb in E. simpl in E. lia.
  - destruct k as [|k]; [|apply IH].
    destruct (m (c :: t)) as [[[|n] rep]|] eqn:E.
    + apply Hb in E. lia.
    + pose proof (Hb _ _ _ E) as Hn. apply Hrep in E. simpl in Hn.
      rewrite length_app. specialize (IH n). lia.
    + simpl. specialize (IH 0). lia.
Qed.

Lemma replace_length (m : matcher) (s : jsstring) :
  bounded m ->
  (forall s n rep, m s = Some (n, rep) -> length rep <= n) ->
  length (replace m s) <= length s.
Proof.
  intros Hb Hrep. pose proof (replace_all_length m Hb Hrep s 0). unfold replace. lia.
Qed.

Lemma trim_length s : length (trim s) <= length s.
Proof.
  destruct (trim_infix s) as (pre & post & E).
  rewrite E at 2. rewrite !length_app. lia.
Qed.

Lemma truncate_length s : length (truncate s) <= length s.
Proof.
  unfold truncate, substring0. destruct (max_length <? length s); [|lia].
  rewrite length_firstn. lia.
Qed.

Lemma re_link_shrinks s n rep : re_link s = Some (n, rep) -> length rep <= n.
Proof.
  destruct s as [|c t]; simpl; [discriminate|].
  destruct (c =? 91)%N; [|discriminate].
  destruct (skipn (run_length (neq 93%N) t) t) as [|x [|p r]]; try discriminate.
  destruct (p =? 40)%N; [|discriminate].
  destruct (skipn (run_length (neq 41%N) r) r); intros [= <- <-].
  rewrite length_firstn. lia.
Qed.

(** X1.  The sanitizer never lengthens a text. *)
Theorem cleanContent_never_longer (content : jsstring) :
  length (cleanContent content) <= length content.
Proof.
  rewrite SanitizerProps.cleanContent_stages.
  unfold collapse_whitespace, strip_format_chars, drop_nonprintable,
    strip_markdown, normalize_line_endings.
  repeat first
    [ etransitivity; [apply truncate_length|]
    | etransitivity; [apply trim_length|]
    | etransitivity;
      [apply replace_length;
       [ first [ apply re_crlf_bounded | apply re_cr_bounded
               | apply re_link_bounded | apply re_delimited_bounded
               | apply re_not_keepable_bounded | apply re_format_char_bounded
               | apply re_run_bounded ]
       | ] |] ].
  all: try reflexivity.
  all: try apply re_link_shrinks.
  all: intros [|c [|d t]] n rep; simpl; try discriminate;
       repeat case_match; intros [= <- <-]; simpl; lia.
Qed.

(** *** Scans that find nothing *)

(** [m] matches at no position of [s]. *)
Lemma replace_never_matching (m : matcher) (s : jsstring) :
  (forall pre u, s = pre ++ u -> m u = None) -> replace m s = s.
Proof.
  unfold replace. induction s as [|c t IH]; intros H; simpl.
  - by rewrite (H [] []).
  - rewrite (H [] (c :: t)) by done. f_equal. apply IH.
    intros pre u ->. by apply (H (c :: pre)).
Qed.

Lemma skipn_run_length_all (c : code_unit) (t : jsstring) :
  c ∉ t -> skipn (run_length (neq c) t) t = [].
Proof.
  induction t as [|d t IH]; [done|].
  intros [Hd Ht]%not_elem_of_cons. simpl. unfold neq at 1.
  destruct (N.eqb_spec d c); [congruence|]. simpl. auto.
Qed.

Lemma unmatched_app_r o c a b : unmatched o c (a ++ b) -> unmatched o c b.
Proof. induction a as [|x a IH]; simpl; [done|]. intros [_ H]. auto. Qed.

Lemma unmatched_app_l o c a b : unmatched o c (a ++ b) -> unmatched o c a.
Proof.
  induction a as [|x a IH]; simpl; [done|].
  intros [H1 H2]. split; [|auto].
  intros Hx Hin. apply (H1 Hx). apply elem_of_app. by left.
Qed.

Lemma unmatched_delimited_none o c u :
  unmatched o c u -> re_delimited o c u = None.
Proof.
  destruct u as [|x t]; [done|]. simpl. intros [H _].
  destruct (N.eqb_spec x o) as [E|E]; [|done].
  by rewrite skipn_run_length_all by auto.
Qed.

Lemma unmatched_link_none u : unmatched 91%N 93%N u -> re_link u = None.
Proof.
  destruct u as [|x t]; [done|]. simpl. intros [H _].
  destruct (N.eqb_spec x 91) as [E|E]; [|done].
  by rewrite skipn_run_length_all by auto.
Qed.

Lemma printable_keepable c : printable c -> keepable c = true.
Proof.
  unfold printable, keepable. intros [H1 H2].
  apply N.leb_le in H1, H2. by rewrite H1, H2.
Qed.

Lemma printable_space c : printable c -> is_space c = true -> c = SP.
Proof.
  unfold printable, is_space, SP. intros [H1 H2] Hs.
  destruct (N.eqb_spec c 32); [done|]. exfalso.
  repeat match type of Hs with
         | (_ || _)%bool = true => apply orb_true_iff in Hs as [Hs|Hs]
         | (_ && _)%bool = true => apply andb_true_iff in Hs as [? ?]
         end;
    repeat match goal with
           | H : (_ <=? _)%N = true |- _ => apply N.leb_le in H
           | H : (_ =? _)%N = true |- _ => apply N.eqb_eq in H
           end; lia.
Qed.

Lemma printable_not_CR c : printable c -> (c =? CR)%N = false.
Proof. unfold printable, CR. intros H. apply N.eqb_neq. lia. Qed.

Lemma normalize_line_endings_printable s :
  Forall printable s -> normalize_line_endings s = s.
Proof.
  intros H. unfold normalize_line_endings.
  assert (replace re_crlf s = s) as ->.
  { apply replace_never_matching. intros pre [|c [|d u]] ->; try done.
    simpl. apply Forall_app in H as [_ H]. inversion H; subst.
    by rewrite printable_not_CR. }
  apply replace_never_matching. intros pre [|c u] ->; [done|].
  simpl. apply Forall_app in H as [_ H]. inversion H; subst.
  by rewrite printable_not_CR.
Qed.

Lemma strip_brackets_unmatched s :
  unmatched 91%N 93%N s -> unmatched 40%N 41%N s ->
  replace (re_delimited 40%N 41%N) (replace (re_delimited 91%N 93%N) s) = s.
Proof.
  intros Hb Hp.
  assert (replace (re_delimited 91%N 93%N) s = s) as ->.
  { apply replace_never_matching. intros pre u ->.
    eapply unmatched_delimited_none, unmatched_app_r, Hb. }
  apply replace_never_matching. intros pre u ->.
  eapply unmatched_delimited_none, unmatched_app_r, Hp.
Qed.

Lemma strip_markdown_unmatched s :
  unmatched 91%N 93%N s -> unmatched 40%N 41%N s -> strip_markdown s = s.
Proof.
  intros Hb Hp. unfold strip_markdown.
  assert (replace re_link s = s) as ->; [|by apply strip_brackets_unmatched].
  apply replace_never_matching. intros pre u ->.
  eapply unmatched_link_none, unmatched_app_r, Hb.
Qed.

Lemma drop_nonprintable_printable s :
  Forall printable s -> drop_nonprintable s = s.
Proof.
  intros H. apply replace_never_matching. intros pre [|c u] ->; [done|].
  simpl. apply Forall_app in H as [_ H]. inversion H; subst.
  by rewrite printable_keepable.
Qed.

Lemma strip_format_chars_unformatted s :
  Forall (fun c => is_format_char c = false) s -> strip_format_chars s = s.
Proof.
  intros H. apply replace_never_matching. intros pre [|c u] ->; [done|].
  simpl. apply Forall_app in H as [_ H]. inversion H as [|? ? E]; subst.
  by rewrite E.
Qed.

Lemma collapse_spaces_single s :
  Forall printable s -> single_spaced s -> replace (re_run is_space) s = s.
Proof.
  unfold replace. induction s as [|c t IH]; [done|].
  intros Hp [Hc Hs]. inversion Hp as [|? ? Hpc Hpt]; subst. simpl.
  destruct (is_space c) eqn:Ec; [|f_equal; auto].
  apply printable_space in Ec as ->; [|done].
  assert (run_length is_space t = 0) as ->.
  { destruct t as [|d t]; [done|]. simpl.
    destruct (is_space d) eqn:Ed; [|done].
    inversion Hpt; subst. apply printable_space in Ed as ->; [|done].
    by destruct (Hc eq_refl). }
  simpl. f_equal. auto.
Qed.

Lemma collapse_whitespace_single s :
  Forall printable s -> single_spaced s -> collapse_whitespace s = s.
Proof.
  intros Hp Hs. unfold collapse_whitespace.
  rewrite collapse_spaces_single by done. by apply collapse_newlines_id.
Qed.

Lemma drop_while_head (p : code_unit -> bool) s :
  (forall c, head s = Some c -> p c = false) -> drop_while p s = s.
Proof. destruct s as [|c t]; [done|]. simpl. intros H. by rewrite H. Qed.

Lemma head_rev (s : jsstring) : head (rev s) = last s.
Proof.
  induction s as [|c t IH] using rev_ind; [done|].
  by rewrite rev_app_distr, last_snoc.
Qed.

Lemma trim_trimmed s :
  (forall c, head s = Some c -> is_space c = false) ->
  (forall c, last s = Some c -> is_space c = false) -> trim s = s.
Proof.
  intros Hh Hl. unfold trim. rewrite (drop_while_head _ s) by done.
  rewrite drop_while_head; [apply rev_involutive|].
  intros c. rewrite head_rev. auto.
Qed.

Lemma printable_end_not_space (s : jsstring) (e : option code_unit) c :
  Forall printable s -> e <> Some SP -> e = Some c -> c ∈ s ->
  is_space c = false.
Proof.
  intros Hp He -> Hin. rewrite Forall_forall in Hp.
  destruct (is_space c) eqn:E; [|done].
  apply printable_space in E; [congruence | auto].
Qed.

Lemma head_elem_of (s : jsstring) c : head s = Some c -> c ∈ s.
Proof. destruct s; [done|]. intros [= ->]. apply list_elem_of_here. Qed.

Lemma last_elem_of (s : jsstring) c : last s = Some c -> c ∈ s.
Proof.
  induction s as [|x t IH] using rev_ind; [done|].
  rewrite last_snoc. intros [= ->]. apply elem_of_app. right. apply list_elem_of_here.
Qed.

(** The stages from the bracket patterns on leave settled text alone. *)
Lemma settled_later_stages s :
  settled s ->
  truncate (trim (collapse_whitespace (strip_format_chars (drop_nonprintable
    (replace (re_delimited 40%N 41%N) (replace (re_delimited 91%N 93%N) s))))))
  = s.
Proof.
  intros [Hp Hf Hs Hh Hl Hb Hpar Hlen].
  rewrite strip_brackets_unmatched, drop_nonprintable_printable,
    strip_format_chars_unformatted, collapse_whitespace_single by done.
  rewrite trim_trimmed.
  - unfold truncate. destruct (Nat.ltb_spec max_length (length s)); [lia | done].
  - intros c Hc.
    apply (printable_end_not_space s (head s) c); auto using head_elem_of.
  - intros c Hc.
    apply (printable_end_not_space s (last s) c); auto using last_elem_of.
Qed.

(** X2.  Settled text is a fixed point of the sanitizer. *)
Theorem cleanContent_settled (s : jsstring) :
  settled s -> cleanContent s = s.
Proof.
  intros Hs. rewrite SanitizerProps.cleanContent_stages.
  rewrite normalize_line_endings_printable by apply Hs.
  unfold strip_markdown.
  assert (replace re_link s = s) as ->; [|by apply settled_later_stages].
  apply replace_never_matching. intros pre u ->.
  eapply unmatched_link_none, unmatched_app_r, (settled_brackets _ Hs).
Qed.

(** *** Both ends of the cleaned text *)

Lemma drop_while_head_false (p : code_unit -> bool) s c :
  head (drop_while p s) = Some c -> p c = false.
Proof.
  induction s as [|d t IH]; [done|]. simpl.
  destruct (p d) eqn:E; [exact IH|]. by intros [= <-].
Qed.

Lemma last_rev (s : jsstring) : last (rev s) = head s.
Proof. destruct s as [|c t]; [done|]. simpl. by rewrite last_snoc. Qed.

Lemma last_suffix (pre s : jsstring) c :
  last s = Some c -> last (pre ++ s) = Some c.
Proof.
  destruct s as [|x t] using rev_ind; [done|].
  rewrite app_assoc, !last_snoc. done.
Qed.

Lemma trim_last s c : last (trim s) = Some c -> is_space c = false.
Proof. unfold trim. rewrite last_rev. apply drop_while_head_false. Qed.

Lemma trim_head s c : head (trim s) = Some c -> is_space c = false.
Proof.
  unfold trim. rewrite head_rev. intros H.
  destruct (drop_while_suffix is_space (rev (drop_while is_space s)))
    as [pre E].
  apply (last_suffix pre) in H. rewrite <- E, last_rev in H.
  by apply drop_while_head_false in H.
Qed.

Lemma truncate_head s : head (truncate s) = head s.
Proof.
  unfold truncate, substring0, max_length.
  destruct (2000 <? length s); [|done]. by destruct s.
Qed.

Lemma truncate_cases s :
  truncate s = s \/ length (truncate s) = max_length.
Proof.
  unfold truncate, substring0.
  destruct (Nat.ltb_spec max_length (length s)); [right | by left].
  rewrite length_firstn. lia.
Qed.

(** X3.  The cleaned text never begins with a space, and it ends with one
    only when it was cut at the maximum length. *)
Theorem cleanContent_ends (content : jsstring) :
  head (cleanContent content) <> Some SP /\
  (last (cleanContent content) = Some SP ->
   length (cleanContent content) = max_length).
Proof.
  rewrite SanitizerProps.cleanContent_stages.
  set (x := collapse_whitespace _). split.
  - rewrite truncate_head. intros H. by apply trim_head in H.
  - destruct (truncate_cases (trim x)) as [-> | H]; [|done].
    intros H. by apply trim_last in H.
Qed.

(** *** What a scan cannot bring about *)

Lemma replace_all_not_elem (m : matcher) (c : code_unit) :
  (forall s n rep, m s = Some (n, rep) -> c ∉ rep) ->
  forall s k, c ∉ s -> c ∉ replace_all m k s.
Proof.
  intros Hrep s k Hs.
  assert (Forall (fun x => x <> c) (replace_all m k s)) as H.
  { apply (replace_all_Forall (fun x => x <> c)).
    - intros u n rep E. apply Forall_forall. intros x Hx ->.
      by apply (Hrep _ _ _ E).
    - intros x t Hx. by repeat case_match.
    - apply Forall_forall. by intros x Hx ->. }
  rewrite Forall_forall in H. intros Hin. by apply (H c).
Qed.

Lemma unmatched_app o c a b :
  o ∉ a -> unmatched o c b -> unmatched o c (a ++ b).
Proof.
  induction a as [|x a IH]; simpl; [done|].
  intros [Hx Ha]%not_elem_of_cons Hb. split; [congruence | auto].
Qed.

Lemma replace_all_unmatched (m : matcher) (o c : code_unit) :
  (forall s n rep, m s = Some (n, rep) -> (o ∉ rep) /\ (c ∉ rep)) ->
  forall s k, unmatched o c s -> unmatched o c (replace_all m k s).
Proof.
  intros Hrep.
  assert (forall s k, c ∉ s -> c ∉ replace_all m k s) as Hc.
  { apply replace_all_not_elem. intros s n rep E. by apply (Hrep _ _ _ E). }
  induction s as [|x t IH]; intros k Hs; simpl.
  - destruct k; [|done]. destruct (m []) as [[n rep]|] eqn:E; [|done].
    rewrite <- (app_nil_r rep). apply unmatched_app; [|done].
    by apply (Hrep _ _ _ E).
  - destruct Hs as [Hx Ht]. destruct k as [|k]; [|auto].
    destruct (m (x :: t)) as [[[|n] rep]|] eqn:E.
    + apply unmatched_app; [by apply (Hrep _ _ _ E)|]. simpl. auto.
    + apply unmatched_app; [by apply (Hrep _ _ _ E)|]. auto.
    + simpl. auto.
Qed.

Lemma blanking_quiet (m : matcher) (o c : code_unit) :
  blanking m -> o <> SP -> c <> SP ->
  forall s n rep, m s = Some (n, rep) -> (o ∉ rep) /\ (c ∉ rep).
Proof.
  intros Hm Ho Hc s n rep E.
  destruct (Hm _ _ _ E) as [-> | ->];
    split; intros H; try by apply elem_of_nil in H.
  all: apply list_elem_of_singleton in H; congruence.
Qed.

Lemma re_delimited_blanking o c : blanking (re_delimited o c).
Proof.
  intros [|x t] n rep; simpl; [done|]. repeat case_match; try done.
  intros [= <- <-]. by left.
Qed.

Lemma re_not_keepable_blanking : blanking re_not_keepable.
Proof.
  intros [|x t] n rep; simpl; [done|]. case_match; [done|].
  intros [= <- <-]. by left.
Qed.

Lemma re_format_char_blanking : blanking re_format_char.
Proof.
  intros [|x t] n rep; simpl; [done|]. case_match; [|done].
  intros [= <- <-]. by left.
Qed.

Lemma re_run_blanking p : blanking (re_run p).
Proof.
  intros [|x t] n rep; simpl; [done|]. case_match; [|done].
  intros [= <- <-]. by right.
Qed.

Lemma skipn_run_length_nil (c : code_unit) (t : jsstring) :
  skipn (run_length (neq c) t) t = [] -> c ∉ t.
Proof.
  induction t as [|d t IH]; [intros _; apply not_elem_of_nil|].
  simpl. unfold neq at 1. destruct (N.eqb_spec d c); simpl; [done|].
  intros H. apply not_elem_of_cons. auto.
Qed.

Lemma re_delimited_deletes o c s n rep :
  re_delimited o c s = Some (n, rep) -> rep = [].
Proof.
  destruct s as [|x t]; simpl; [done|]. repeat case_match; try done.
  by intros [= <- <-].
Qed.

(** After the scan for a delimited pattern nothing is left to match. *)
Lemma replace_delimited_unmatched o c s :
  unmatched o c (replace (re_delimited o c) s).
Proof.
  remember (length s) as n eqn:Hn. revert s Hn.
  induction (lt_wf n) as [n _ IH]. intros s ->.
  rewrite replace_unfold by apply re_delimited_bounded.
  destruct (re_delimited o c s) as [[n rep]|] eqn:E.
  - pose proof (re_delimited_bounded o c _ _ _ E) as Hn.
    apply re_delimited_deletes in E as ->.
    simpl. eapply IH; [|reflexivity]. rewrite length_skipn. lia.
  - destruct s as [|x t]; [done|]. split.
    + intros ->. apply replace_all_not_elem.
      * intros u k rep Hu. apply re_delimited_deletes in Hu as ->.
        apply not_elem_of_nil.
      * simpl in E. rewrite N.eqb_refl in E.
        apply skipn_run_length_nil. by destruct (skipn _ t).
    + eapply IH; [|reflexivity]. simpl. lia.
Qed.

(** *** Cleaning twice *)

(** A property kept by every blanking scan and by taking a part of a text
    is kept by the stages that follow the bracket patterns. *)
Lemma later_stages_keep (R : jsstring -> Prop) (s : jsstring) :
  (forall m u, blanking m -> R u -> R (replace m u)) ->
  (forall a b c, R (a ++ b ++ c) -> R b) ->
  R s ->
  R (truncate (trim (collapse_whitespace (strip_format_chars
       (drop_nonprintable s))))).
Proof.
  intros Hscan Hpart Hs.
  unfold collapse_whitespace, strip_format_chars, drop_nonprintable.
  set (x := replace (re_run _) (replace (re_run is_space) _)).
  assert (R x) as Hx.
  { subst x. repeat apply Hscan;
      auto using re_run_blanking, re_format_char_blanking,
                 re_not_keepable_blanking. }
  assert (R (trim x)) as Ht.
  { destruct (trim_infix x) as (pre & post & E). apply (Hpart pre _ post).
    by rewrite <- E. }
  unfold truncate, substring0. destruct (max_length <? length (trim x)); [|done].
  apply (Hpart [] _ (skipn max_length (trim x))). simpl.
  by rewrite firstn_skipn.
Qed.

Lemma unmatched_part o c a b d : unmatched o c (a ++ b ++ d) -> unmatched o c b.
Proof. intros H. eapply unmatched_app_l, unmatched_app_r, H. Qed.

Lemma unmatched_blanking o c m u :
  o <> SP -> c <> SP -> blanking m ->
  unmatched o c u -> unmatched o c (replace m u).
Proof.
  intros Ho Hc Hm. apply replace_all_unmatched. by apply blanking_quiet.
Qed.

Lemma unformatted_blanking m u :
  blanking m ->
  Forall (fun c => is_format_char c = false) u ->
  Forall (fun c => is_format_char c = false) (replace m u).
Proof.
  intros Hm. apply replace_all_Forall.
  - intros s n rep E. destruct (Hm _ _ _ E) as [-> | ->]; by repeat constructor.
  - intros c t Hc. by repeat case_match.
Qed.

Lemma strip_format_chars_unformats s :
  Forall (fun c => is_format_char c = false) (strip_format_chars s).
Proof.
  apply (replace_all_Forall (fun _ => True)); [| |by apply Forall_forall].
  - intros [|c t] n rep; simpl; [done|]. case_match; [|done].
    intros [= <- <-]. constructor.
  - intros c t _. simpl. by destruct (is_format_char c) eqn:E.
Qed.

(** Unless it was cut right after a space, the cleaned text is settled. *)
Lemma cleanContent_settles content :
  last (cleanContent content) <> Some SP -> settled (cleanContent content).
Proof.
  intros Hlast.
  pose proof (truncate_head (trim (collapse_whitespace (strip_format_chars
    (drop_nonprintable (strip_markdown (normalize_line_endings content)))))))
    as Hhead.
  revert Hlast Hhead. rewrite (SanitizerProps.cleanContent_stages content).
  unfold strip_markdown.
  set (s3 := replace re_link (normalize_line_endings content)).
  set (s4 := replace (re_delimited 91%N 93%N) s3).
  set (s5 := replace (re_delimited 40%N 41%N) s4).
  intros Hlast Hhead.
  pose proof (strip_format_chars_keepable _ (drop_nonprintable_keepable s5)) as Hk.
  destruct (SanitizerProps.collapse_whitespace_spec _ Hk) as [Hp Hs].
  destruct (SanitizerProps.trim_spec _ Hp Hs) as [Hp' Hs'].
  destruct (SanitizerProps.truncate_spec _ Hp' Hs') as (Hlen & Hp'' & Hs'').
  split; try assumption.
  - unfold collapse_whitespace.
    set (x := replace (re_run _) (replace (re_run is_space) _)).
    assert (Forall (fun c => is_format_char c = false) x) as Hx.
    { subst x. do 2 (apply unformatted_blanking; [apply re_run_blanking|]).
      apply strip_format_chars_unformats. }
    assert (Forall (fun c => is_format_char c = false) (trim x)) as Ht.
    { destruct (trim_infix x) as (pre & post & E). rewrite E in Hx.
      apply Forall_app in Hx as [_ Hx]. by apply Forall_app in Hx as [Hx _]. }
    unfold truncate, substring0. destruct (max_length <? length (trim x)); [|done].
    by apply Forall_take.
  - rewrite Hhead. intros H. by apply trim_head in H.
  - apply (later_stages_keep (unmatched 91%N 93%N)).
    + intros m u. by apply unmatched_blanking.
    + apply unmatched_part.
    + subst s5. apply unmatched_blanking; [done | done | |].
      * apply re_delimited_blanking.
      * apply replace_delimited_unmatched.
  - apply (later_stages_keep (unmatched 40%N 41%N)).
    + intros m u. by apply unmatched_blanking.
    + apply unmatched_part.
    + apply replace_delimited_unmatched.
Qed.

(** X4.  Cleaning a cleaned text changes nothing, unless the first pass cut
    the text right after a space (the second pass then trims that space). *)
Theorem cleanContent_idempotent (content : jsstring) :
  last (cleanContent content) <> Some SP ->
  cleanContent (cleanContent content) = cleanContent content.
Proof.
  intros Hlast.
  pose proof (cleanContent_settles content Hlast) as Hs.
  rewrite (SanitizerProps.cleanContent_stages (cleanContent content)).
  rewrite normalize_line_endings_printable by apply Hs.
  rewrite strip_markdown_unmatched by apply Hs.
  rewrite drop_nonprintable_printable, strip_format_chars_unformatted,
    collapse_whitespace_single by apply Hs.
  rewrite trim_trimmed.
  - unfold truncate.
    destruct (Nat.ltb_spec max_length (length (cleanContent content)));
      [|done].
    pose proof (settled_length _ Hs). lia.
  - intros c Hc.
    apply (printable_end_not_space (cleanContent content) (head (cleanContent content)) c);
      auto using head_elem_of; apply Hs.
  - intros c Hc.
    apply (printable_end_not_space (cleanContent content) (last (cleanContent content)) c);
      auto using last_elem_of; apply Hs.
Qed.

(** *** Links *)

Lemma run_length_app_stop (c : code_unit) (t r : jsstring) :
  c ∉ t -> run_length (neq c) (t ++ c :: r) = length t.
Proof.
  induction t as [|d t IH]; simpl.
  - intros _. unfold neq. by rewrite N.eqb_refl.
  - intros [Hd Ht]%not_elem_of_cons. unfold neq at 1.
    destruct (N.eqb_spec d c); [congruence|]. simpl. auto.
Qed.

Lemma re_link_on_link text target rest :
  93%N ∉ text -> 41%N ∉ target ->
  re_link (link text target ++ rest)
  = Some (length (link text target), text).
Proof.
  intros Ht Hu. unfold link. cbn [re_link app N.eqb Pos.eqb].
  rewrite <- !app_assoc. cbn [app].
  rewrite run_length_app_stop, skipn_app, skipn_all, Nat.sub_diag by done.
  cbn [app skipn N.eqb Pos.eqb].
  rewrite <- app_assoc. cbn [app].
  rewrite run_length_app_stop, skipn_app, skipn_all, Nat.sub_diag by done.
  cbn [app skipn].
  rewrite firstn_app, firstn_all, Nat.sub_diag, app_nil_r.
  do 2 f_equal. simpl. rewrite !length_app. simpl. rewrite !length_app. simpl. lia.
Qed.

(** The link pattern, where it applies: the link is replaced by its text
    and the scan goes on behind it. *)
Lemma replace_link text target rest :
  93%N ∉ text -> 41%N ∉ target ->
  replace re_link (link text target ++ rest) = text ++ replace re_link rest.
Proof.
  intros Ht Hu. rewrite replace_unfold by apply re_link_bounded.
  rewrite re_link_on_link by done.
  by rewrite skipn_app, skipn_all, Nat.sub_diag.
Qed.

(** X5.  A markdown link with settled text resolves to that text, whatever
    its printable target. *)
Theorem cleanContent_link (text target : jsstring) :
  settled text -> 93%N ∉ text ->
  Forall printable target -> 41%N ∉ target ->
  cleanContent (link text target) = text.
Proof.
  intros Hs Ht Hp Hu. rewrite SanitizerProps.cleanContent_stages.
  rewrite normalize_line_endings_printable.
  - unfold strip_markdown.
    rewrite <- (app_nil_r (link text target)), replace_link by done.
    replace (replace re_link []) with (@nil code_unit) by done.
    rewrite app_nil_r. by apply settled_later_stages.
  - unfold link. apply Forall_cons. split; [unfold printable; lia|].
    apply Forall_app. split; [apply Hs|].
    do 2 (apply Forall_cons; split; [unfold printable; lia|]).
    apply Forall_app. split; [done|].
    apply Forall_cons. split; [unfold printable; lia | constructor].
Qed.

(** *** The properties at work *)

Lemma fox_settled : settled fox.
Proof.
  split; try (vm_compute; discriminate).
  - repeat constructor; vm_compute; discriminate.
  - repeat constructor.
  - vm_compute. repeat split; discriminate.
  - vm_compute. repeat split; intros [=].
  - vm_compute. repeat split; intros [=].
  - vm_compute. lia.
Qed.

Lemma cleanContent_settled_witness : cleanContent fox = fox.
Proof. apply (cleanContent_settled fox). exact fox_settled. Defined.

Lemma cleanContent_idempotent_witness :
  cleanContent markdown = of_ascii "The quick brown fox" /\
  cleanContent (cleanContent markdown) = cleanContent markdown.
Proof.
  split; [vm_compute; reflexivity|].
  apply (cleanContent_idempotent markdown). vm_compute. discriminate.
Defined.

(** The exception is real: cut right after a space, the text loses that
    space in a second pass. *)
Example cleanContent_not_idempotent :
  length (cleanContent cut_after_space) = 2000 /\
  length (cleanContent (cleanContent cut_after_space)) = 1999.
Proof. split; vm_compute; reflexivity. Qed.

Lemma cleanContent_link_witness : cleanContent (link fox target) = fox.
Proof.
  apply (cleanContent_link fox target).
  - exact fox_settled.
  - apply (bool_decide_unpack _). vm_compute. exact I.
  - repeat constructor; vm_compute; discriminate.
  - apply (bool_decide_unpack _). vm_compute. exact I.
Defined.

End SanitizerMore.

(** ** The sanitizer against its description *)

Module SanitizerContract.
Import Js Sanitizer JsFacts SanitizerFacts Settled SanitizerMore.

(** *** Line endings *)

Lemma replace_cr_map s :
  replace re_cr s = map (fun c => if (c =? CR)%N then LF else c) s.
Proof.
  unfold replace. induction s as [|c t IH]; [done|]. simpl.
  destruct (c =? CR)%N; simpl; by rewrite IH.
Qed.

Lemma normalize_line_endings_reference s :
  normalize_line_endings s = Reference.unify_line_endings s.
Proof.
  unfold normalize_line_endings. rewrite replace_cr_map.
  remember (length s) as n eqn:Hn. revert s Hn.
  induction (lt_wf n) as [n _ IH]. intros [|c [|d t]] ->; [done| |].
  - unfold replace, CR, LF. simpl. by destruct (c =? 13)%N.
  - pose proof (IH (length (d :: t)) ltac:(simpl; lia) (d :: t) eq_refl) as IH1.
    pose proof (IH (length t) ltac:(simpl; lia) t eq_refl) as IH2.
    rewrite (replace_unfold re_crlf) by apply re_crlf_bounded.
    cbn [re_crlf Reference.unify_line_endings].
    change 13%N with CR. change 10%N with LF.
    destruct (N.eqb_spec c CR) as [->|Hc]; simpl.
    + destruct (N.eqb_spec d LF) as [->|Hd]; simpl.
      * change (drop 0 t) with t. by rewrite IH2.
      * fold (replace re_crlf (d :: t)). by rewrite IH1.
    + destruct (N.eqb_spec c CR); [done|].
      fold (replace re_crlf (d :: t)). by rewrite IH1.
Qed.

(** *** Markdown *)

Lemma split_at_run c s :
  Reference.split_at c s =
    match skipn (run_length (neq c) s) s with
    | [] => None
    | _ :: rest => Some (firstn (run_length (neq c) s) s, rest)
    end.
Proof.
  unfold neq. induction s as [|x t IH]; [done|]. simpl.
  destruct (x =? c)%N; simpl; [done|]. rewrite IH.
  by destruct (skipn (run_length (fun d => negb (d =? c)%N) t) t).
Qed.

Lemma replace_rewrite_all m at_head :
  bounded m -> Reference.agree m at_head ->
  forall fuel s, length s <= fuel ->
    replace m s = Reference.rewrite_all at_head fuel s.
Proof.
  intros Hm Ha. induction fuel as [|fuel IH]; intros s Hs.
  { destruct s; [|simpl in Hs; lia]. rewrite replace_unfold by done.
    destruct (m []) as [[n rep]|] eqn:E; [|done].
    apply Hm in E. simpl in E. lia. }
  rewrite replace_unfold by done. destruct s as [|c t].
  { destruct (m []) as [[n rep]|] eqn:E; [|done].
    apply Hm in E. simpl in E. lia. }
  cbn [Reference.rewrite_all]. rewrite Ha.
  destruct (m (c :: t)) as [[n rep]|] eqn:E.
  - f_equal. apply IH. apply Hm in E. rewrite length_skipn. simpl in *. lia.
  - f_equal. apply IH. simpl in Hs. lia.
Qed.

Lemma re_link_agree : Reference.agree re_link Reference.link_at.
Proof.
  intros [|c t]; [done|]. unfold re_link, Reference.link_at.
  destruct (c =? 91)%N; [|done]. rewrite split_at_run.
  set (n := run_length (neq 93%N) t).
  destruct (skipn n t) as [|x [|p r]] eqn:Et; [done|done|].
  destruct (p =? 40)%N; [|done]. rewrite split_at_run.
  set (k := run_length (neq 41%N) r).
  destruct (skipn k r) as [|y rest] eqn:Er; [done|].
  f_equal. f_equal.
  replace (n + k + 4) with (S (n + (2 + (k + 1)))) by lia.
  cbn [skipn]. rewrite <- drop_drop, Et.
  change (2 + (k + 1)) with (S (S (k + 1))). cbn [skipn].
  by rewrite <- drop_drop, Er.
Qed.

Lemma re_delimited_agree o c :
  Reference.agree (re_delimited o c) (Reference.delimited_at o c).
Proof.
  intros [|x t]; [done|]. unfold re_delimited, Reference.delimited_at.
  destruct (x =? o)%N; [|done]. rewrite split_at_run.
  set (n := run_length (neq c) t).
  destruct (skipn n t) as [|y rest] eqn:Et; [done|].
  f_equal. f_equal.
  replace (n + 2) with (S (n + 1)) by lia.
  cbn [skipn]. by rewrite <- drop_drop, Et.
Qed.

Lemma strip_markdown_reference s :
  strip_markdown s = Reference.strip_markdown s.
Proof.
  unfold strip_markdown, Reference.strip_markdown. cbv zeta.
  rewrite <- (replace_rewrite_all re_link Reference.link_at
                re_link_bounded re_link_agree (length s) s) by lia.
  set (s1 := replace re_link s).
  rewrite <- (replace_rewrite_all (re_delimited 91%N 93%N)
                (Reference.delimited_at 91%N 93%N)
                (re_delimited_bounded 91%N 93%N) (re_delimited_agree 91%N 93%N)
                (length s1) s1) by lia.
  set (s2 := replace (re_delimited 91%N 93%N) s1).
  by rewrite <- (replace_rewrite_all (re_delimited 40%N 41%N)
                   (Reference.delimited_at 40%N 41%N)
                   (re_delimited_bounded 40%N 41%N) (re_delimited_agree 40%N 41%N)
                   (length s2) s2) by lia.
Qed.

(** *** What is dropped *)

Lemma plain_keepable c :
  Reference.plain c = keepable c && negb (is_format_char c).
Proof.
  unfold Reference.plain, Reference.markdown_mark, keepable, is_format_char, LF.
  simpl.
  destruct (c =? 10)%N, (32 <=? c)%N, (c <=? 126)%N, (c =? 35)%N, (c =? 42)%N,
    (c =? 95)%N, (c =? 96)%N, (c =? 126)%N; reflexivity.
Qed.

Lemma drop_reference s :
  strip_format_chars (drop_nonprintable s) = List.filter Reference.plain s.
Proof.
  unfold strip_format_chars, drop_nonprintable, replace.
  induction s as [|c t IH]; [done|]. simpl. rewrite plain_keepable.
  destruct (keepable c); simpl; [|exact IH].
  destruct (is_format_char c); simpl; [exact IH|]. by rewrite IH.
Qed.

Lemma filter_plain s :
  Forall (fun c => Reference.plain c = true) (List.filter Reference.plain s).
Proof.
  apply Forall_forall. intros c Hc%list_elem_of_In. by apply filter_In in Hc as [_ ->].
Qed.

(** Among plain code units, white space is space and newline. *)
Lemma plain_space c :
  Reference.plain c = true -> is_space c = Reference.blank c.
Proof.
  unfold Reference.plain. intros H. apply andb_prop in H as [H _].
  apply orb_prop in H as [H|H].
  - apply N.eqb_eq in H. by subst c.
  - apply andb_prop in H as [Hlo%N.leb_le Hhi%N.leb_le].
    unfold Reference.blank, is_space.
    repeat match goal with
           | |- context [(?a <=? ?b)%N] => destruct (N.leb_spec a b); try lia
           | |- context [(?a =? ?b)%N] => destruct (N.eqb_spec a b); try lia
           end; reflexivity.
Qed.

(** *** Words *)

Local Abbreviation rtrim y := (rev (drop_while is_space (rev y))).
Local Abbreviation collapse s := (replace (re_run is_space) s).
Local Abbreviation nonempty := (fun w : jsstring => negb (length w =? 0)).

Lemma skipn_run_length_drop_while p s :
  skipn (run_length p s) s = drop_while p s.
Proof. induction s as [|c t IH]; [done|]. simpl. by destruct (p c). Qed.

Lemma drop_while_length p s : length (drop_while p s) <= length s.
Proof.
  induction s as [|c t IH]; [done|]. simpl. destruct (p c); simpl; lia.
Qed.

Lemma collapse_space c t :
  is_space c = true ->
  collapse (c :: t) = SP :: collapse (drop_while is_space t).
Proof.
  intros H. unfold replace. simpl. rewrite H.
  rewrite replace_all_skipn by apply run_length_le.
  by rewrite skipn_run_length_drop_while.
Qed.

Lemma collapse_word c t :
  is_space c = false -> collapse (c :: t) = c :: collapse t.
Proof. intros H. unfold replace. simpl. by rewrite H. Qed.

Lemma drop_while_snoc p a c :
  p c = false -> drop_while p (a ++ [c]) = drop_while p a ++ [c].
Proof.
  intros H. induction a as [|x a IH]; simpl; [by rewrite H|].
  by destruct (p x).
Qed.

Lemma drop_while_snoc_true p a c :
  p c = true ->
  drop_while p (a ++ [c]) =
    match drop_while p a with
    | [] => []
    | _ => drop_while p a ++ [c]
    end.
Proof.
  intros H. induction a as [|x a IH]; simpl; [by rewrite H|].
  by destruct (p x).
Qed.

Lemma rtrim_word c y :
  is_space c = false -> rtrim (c :: y) = c :: rtrim y.
Proof.
  intros H. simpl. rewrite drop_while_snoc by done.
  by rewrite rev_app_distr.
Qed.

Lemma rtrim_space c y :
  is_space c = true -> rtrim y <> [] -> rtrim (c :: y) = c :: rtrim y.
Proof.
  intros H Hy. simpl. rewrite drop_while_snoc_true by done.
  destruct (drop_while is_space (rev y)); [done|].
  by rewrite rev_app_distr.
Qed.

Lemma pieces_cons s : exists w ws, Reference.pieces s = w :: ws.
Proof.
  destruct s as [|c t]; simpl; [by eexists _, _|].
  destruct (Reference.blank c); [by eexists _, _|].
  destruct (Reference.pieces t); by eexists _, _.
Qed.

Lemma words_space c t :
  Reference.blank c = true -> Reference.words (c :: t) = Reference.words t.
Proof. intros H. unfold Reference.words. simpl. by rewrite H. Qed.

Lemma words_word c t w ws :
  Reference.blank c = false -> Reference.pieces t = w :: ws ->
  Reference.words (c :: t) = (c :: w) :: List.filter nonempty ws.
Proof. intros H E. unfold Reference.words. simpl. by rewrite H, E. Qed.

Lemma words_drop_while s :
  Forall (fun c => Reference.plain c = true) s ->
  Reference.words (drop_while is_space s) = Reference.words s.
Proof.
  induction 1 as [|c t Hc Ht IH]; [done|]. simpl.
  destruct (is_space c) eqn:E; [|done].
  rewrite plain_space in E by done. by rewrite words_space.
Qed.

Lemma drop_while_plain p s :
  Forall (fun c => Reference.plain c = true) s ->
  Forall (fun c => Reference.plain c = true) (drop_while p s).
Proof.
  intros H. destruct (drop_while_suffix p s) as [pre E].
  rewrite E in H. by apply Forall_app in H as [_ H].
Qed.

(** The collapsed text, trimmed on the right, is the first piece followed
    by the other words, each after one space. *)
Lemma rtrim_collapse t w ws :
  Forall (fun c => Reference.plain c = true) t ->
  Reference.pieces t = w :: ws ->
  rtrim (collapse t) = w ++ flat_map (fun w' => SP :: w') (List.filter nonempty ws).
Proof.
  remember (length t) as n eqn:Hn. revert t w ws Hn.
  induction (lt_wf n) as [n _ IH]. intros [|d t] w ws -> Hp E.
  { injection E as <- <-. done. }
  apply Forall_cons in Hp as [Hd Ht]. simpl in E.
  destruct (Reference.blank d) eqn:Eb.
  - injection E as <- <-.
    rewrite collapse_space by by rewrite plain_space.
    change (List.filter nonempty (Reference.pieces t)) with (Reference.words t).
    rewrite <- words_drop_while by done.
    pose proof (drop_while_plain is_space t Ht) as Hu.
    pose proof (drop_while_length is_space t) as Hlen.
    destruct (drop_while is_space t) as [|e u] eqn:Eu; [done|].
    assert (is_space e = false) as He.
    { apply (drop_while_head_false is_space t). by rewrite Eu. }
    apply Forall_cons in Hu as [He' Hu].
    destruct (pieces_cons u) as (w' & ws' & Ew).
    assert (Reference.blank e = false) as Hb by (by rewrite <- plain_space).
    rewrite (words_word e u w' ws' Hb Ew).
    rewrite collapse_word by done.
    rewrite rtrim_space; [|by apply is_space_SP|by rewrite rtrim_word].
    rewrite rtrim_word by done.
    rewrite (IH (length u) ltac:(simpl in *; lia) u w' ws' eq_refl Hu Ew).
    done.
  - destruct (pieces_cons t) as (w' & ws' & Ew). rewrite Ew in E.
    injection E as <- <-.
    rewrite collapse_word by by rewrite plain_space.
    rewrite rtrim_word by by rewrite plain_space.
    by rewrite (IH (length t) ltac:(simpl; lia) t w' ws' eq_refl Ht Ew).
Qed.

Lemma plain_is_keepable c : Reference.plain c = true -> keepable c = true.
Proof. rewrite plain_keepable. by intros [? _]%andb_prop. Qed.

Lemma words_reference s :
  Forall (fun c => Reference.plain c = true) s ->
  trim (collapse_whitespace s) = Reference.unwords (Reference.words s).
Proof.
  intros Hp. unfold collapse_whitespace.
  rewrite collapse_newlines_id.
  2: { apply collapse_spaces_printable.
       eapply Forall_impl; [exact Hp|]. apply plain_is_keepable. }
  unfold trim. rewrite <- (words_drop_while s) by done.
  assert (drop_while is_space (collapse s)
          = collapse (drop_while is_space s)) as ->.
  { destruct s as [|c t]; [done|]. simpl.
    destruct (is_space c) eqn:Ec.
    - rewrite collapse_space by done. simpl.
      destruct (drop_while is_space t) as [|e u] eqn:Eu; [done|].
      assert (is_space e = false) as He.
      { apply (drop_while_head_false is_space t). by rewrite Eu. }
      rewrite collapse_word by done. simpl. by rewrite He.
    - rewrite collapse_word by done. simpl. by rewrite Ec. }
  pose proof (drop_while_plain is_space s Hp) as Hu.
  destruct (drop_while is_space s) as [|e u] eqn:Eu; [done|].
  assert (is_space e = false) as He.
  { apply (drop_while_head_false is_space s). by rewrite Eu. }
  destruct (pieces_cons (e :: u)) as (w & ws & Ew).
  rewrite (rtrim_collapse (e :: u) w ws) by done.
  apply Forall_cons in Hu as [He' Hu].
  destruct (pieces_cons u) as (w' & ws' & Ew').
  assert (Reference.blank e = false) as Hb by (by rewrite <- plain_space).
  rewrite (words_word e u w' ws' Hb Ew').
  simpl in Ew. rewrite Hb, Ew' in Ew.
  by injection Ew as <- <-.
Qed.

(** *** The whole *)

Lemma truncate_firstn s : truncate s = firstn 2000 s.
Proof.
  unfold truncate, substring0, max_length.
  destruct (Nat.ltb_spec 2000 (length s)); [done|].
  symmetry. apply firstn_all2. lia.
Qed.

(** C3.  The cleaned content is at most 2000 code units long, consists of
    printable ASCII (0x20 to 0x7E) only, hence holds no newline, never has
    two spaces in a row, never begins with a space, and ends with one only
    when it was cut at the limit.  It is the text that the steps give in
    this order: line endings made one; markdown links resolved to their
    text, then bracketed references and parentheticals removed; code units
    other than printable ASCII and newline dropped, and with them the
    markdown formatting characters; the words that space and newline
    separate joined by single spaces, which collapses white space and
    trims both ends; and at last the cut at 2000. *)
Theorem cleanContent_sanitized (content : jsstring) :
  length (cleanContent content) <= 2000 /\
  Forall printable (cleanContent content) /\
  (LF ∉ cleanContent content) /\
  single_spaced (cleanContent content) /\
  head (cleanContent content) <> Some SP /\
  (last (cleanContent content) = Some SP ->
   length (cleanContent content) = 2000) /\
  cleanContent content =
    firstn 2000
      (Reference.unwords (Reference.words (List.filter Reference.plain
         (Reference.strip_markdown
            (Reference.unify_line_endings content))))).
Proof.
  rewrite <- strip_markdown_reference, <- normalize_line_endings_reference.
  rewrite <- words_reference by apply filter_plain.
  rewrite <- drop_reference, strip_format_chars_drop_nonprintable.
  rewrite <- truncate_firstn, <- strip_format_chars_drop_nonprintable.
  rewrite <- SanitizerProps.cleanContent_stages.
  rewrite SanitizerProps.cleanContent_stages at 1 2 3 4 5 6 7.
  set (s := strip_markdown (normalize_line_endings content)).
  pose proof (strip_format_chars_keepable _ (drop_nonprintable_keepable s))
    as Hk.
  destruct (SanitizerProps.collapse_whitespace_spec _ Hk) as [Hp Hs].
  destruct (SanitizerProps.trim_spec _ Hp Hs) as [Hp' Hs'].
  destruct (SanitizerProps.truncate_spec _ Hp' Hs') as (Hlen & Hp'' & Hs'').
  set (x := trim (collapse_whitespace (strip_format_chars
                    (drop_nonprintable s)))) in *.
  repeat split; try assumption.
  - intros Hin. rewrite Forall_forall in Hp''. apply Hp'' in Hin.
    unfold printable, LF in Hin. lia.
  - rewrite truncate_head. intros H. by apply trim_head in H.
  - intros Hlast. destruct (truncate_cases x) as [E|E]; [|exact E].
    rewrite E in Hlast. by apply trim_last in Hlast.
Qed.

End SanitizerContract.

(** ** Further properties of the embedding endpoint *)

Module EmbedMore.
Import Js Sanitizer Http Embed Cost EmbedProps SanitizerMore Sample Cases.

Section More.
Context {num : Type} (zero : num).
Implicit Types (w : world num) (db : gmap Z (section_row num)).
Implicit Types (row : Z * option jsstring) (evs : list (event num)).

(** The model is run on the text the loop was given, for its row. *)
Lemma retry_loop_runs w id text n i t :
  EvRun i t ∈ (retry_loop zero w id text n).1 -> i = id /\ t = text.
Proof.
  assert (Forall (fun ev => match ev with
                            | EvRun i t => i = id /\ t = text
                            | _ => True
                            end) (retry_loop zero w id text n).1) as H.
  { induction n as [|n IH]; simpl; [constructor|].
    destruct (retry_loop zero w id text n) as [later exit]. simpl in IH.
    destruct (attempt w id (maxRetries - S n) text); simpl;
      repeat case_match; simplify_eq; simpl;
      repeat first [ apply Forall_nil_2
                   | apply Forall_cons_2; [done|]
                   | assumption ]. }
  rewrite Forall_forall in H. intros Hin. apply (H _ Hin).
Qed.

(** What a row can cost: three runs, and twelve seconds of waiting (three
    times 1000 ms before a run, 3000 ms and 6000 ms between attempts). *)
Lemma retry_loop_cost w id text :
  length (runs (retry_loop zero w id text maxRetries).1) <= 3 /\
  (waiting (retry_loop zero w id text maxRetries).1 <= 12000)%N.
Proof.
  cbn. destruct (attempt w id 0 text), (attempt w id 1 text),
    (attempt w id 2 text); cbn; split; lia.
Qed.



Local Arguments retry_loop : simpl never.
Local Arguments cleanContent : simpl never.

(** Each row of the table is either not selected and untouched, or selected
    and left as processing it alone leaves it. *)
Lemma handler_row e w req db id :
  (row_events id (effects zero e w req db) = [] /\
   table_after zero e w req db !! id = db !! id) \/
  exists r, db !! id = Some r /\ id ∈ ids req /\ embedding r = None /\
    row_events id (effects zero e w req db)
      = (process_row zero w db (id, content r)).1 /\
    table_after zero e w req db !! id
      = (process_row zero w db (id, content r)).2 !! id.
Proof.
  destruct (decide (id ∈ (select_rows (ids req) db).*1)) as [Hin|Hout];
    [|left; by apply handler_not_selected].
  apply list_elem_of_fmap in Hin as ([k c] & -> & Hin). simpl.
  pose proof Hin as (r & Hr & Hid & He & ->)%elem_of_select_rows.
  destruct (preflight req) eqn:Hp;
    [left; unfold effects, table_after, handler; by rewrite Hp|].
  destruct (configured e) eqn:Hc.
  2: { left. unfold effects, table_after, handler, configured in *.
       rewrite Hp. by destruct (truthy (SUPA_URL e)), (truthy (SUPA_ANON_KEY e)). }
  destruct (truthy (authorization req)) eqn:Ha.
  2: { left. by destruct (handler_returns_early zero e w req db) as [-> ->];
         [right|]. }
  destruct (select_error w) eqn:Hs.
  2: { right. exists r. repeat split; try done; by apply handler_selected. }
  left. apply andb_true_iff in Hc as [Hu Hk].
  unfold effects, table_after, handler. by rewrite Hp, Hu, Hk, Ha, Hs.
Qed.


(** What processing a row can do to the table: nothing, or set the row's
    embedding to a value of 1024 entries. *)
Lemma process_row_state w db row :
  (process_row zero w db row).2 = db \/
  exists v, length v = 1024 /\
    (process_row zero w db row).2 = update_embedding row.1 (Some v) db.
Proof.
  destruct row as [id [c|]]; [|by left].
  destruct (Nat.lt_ge_cases (length (cleanContent c)) min_length) as [Hlt|Hge].
  { left. by rewrite process_row_short. }
  rewrite process_row_usable by exact Hge. cbv zeta.
  destruct (retry_loop_spec zero w id (cleanContent c))
    as (n & _ & _ & _ & _ & _ & _ & _ & Hexit).
  destruct (retry_loop zero w id (cleanContent c) maxRetries) as [evs exit].
  simpl in *. destruct exit as [|out|]; [by left| |done].
  destruct Hexit as (v & _ & ->). simpl.
  destruct (update_error w id _); [by left|].
  right. eexists. split; [apply normalize_output_length | done].
Qed.

(** X6.  A run never changes the content of a row and never adds or removes
    a row; the embedding of a row changes only for a row that the request
    lists and that had none, and then to a value of 1024 entries. *)
Theorem run_only_fills_missing_embeddings e w req db :
  (forall id, content <$> table_after zero e w req db !! id
              = content <$> db !! id) /\
  (forall id,
     embedding <$> table_after zero e w req db !! id = embedding <$> db !! id \/
     (id ∈ ids req /\ embedding <$> db !! id = Some None /\
      exists v, length v = 1024 /\
        embedding <$> table_after zero e w req db !! id = Some (Some v))).
Proof.
  assert (forall id r v, db !! id = Some r ->
    update_embedding id (Some v) db !! id
    = Some {| content := content r; embedding := Some v |}) as written.
  { intros id r v Hr. simpl. by rewrite lookup_alter_eq, Hr. }
  split; intros id;
    (destruct (handler_row e w req db id)
       as [[_ ->] | (r & Hr & Hid & He & _ & ->)]; [by auto|]);
    destruct (process_row_state w db (id, content r)) as [-> | (v & Hv & ->)];
    try by auto.
  - by erewrite written, Hr.
  - right. split; [done|]. erewrite written, Hr by done. simpl.
    rewrite He. eauto.
Qed.

(** The handler's text is printable ASCII of bounded length. *)
Lemma cleanContent_shape content :
  length (cleanContent content) <= max_length /\
  Forall printable (cleanContent content).
Proof.
  rewrite SanitizerProps.cleanContent_stages.
  set (s := strip_markdown (normalize_line_endings content)).
  pose proof (SanitizerFacts.strip_format_chars_keepable _
                (SanitizerFacts.drop_nonprintable_keepable s)) as Hk.
  destruct (SanitizerProps.collapse_whitespace_spec _ Hk) as [Hp Hs].
  destruct (SanitizerProps.trim_spec _ Hp Hs) as [Hp' Hs'].
  destruct (SanitizerProps.truncate_spec _ Hp' Hs') as (Hlen & Hp'' & _).
  done.
Qed.

Lemma elem_of_row_events id ev evs :
  ev ∈ evs -> event_row ev = Some id -> ev ∈ row_events id evs.
Proof. intros Hin Hev. apply list_elem_of_filter. done. Qed.

(** X7.  Whatever is given to the model is the cleaned content of a row
    that the request lists and that has no embedding: between 10 and 2000
    code units of printable ASCII. *)
Theorem model_input_is_clean e w req db id text :
  EvRun id text ∈ effects zero e w req db ->
  exists r c,
    db !! id = Some r /\ id ∈ ids req /\ embedding r = None /\
    content r = Some c /\ text = cleanContent c /\
    min_length <= length text <= max_length /\ Forall printable text.
Proof.
  intros Hrun. apply (elem_of_row_events id) in Hrun; [|done].
  destruct (handler_row e w req db id)
    as [[E _] | (r & Hr & Hid & He & E & _)]; rewrite E in Hrun.
  { by apply elem_of_nil in Hrun. }
  exists r. destruct (content r) as [c|] eqn:Hc; [|by apply elem_of_nil in Hrun].
  exists c. destruct (Nat.lt_ge_cases (length (cleanContent c)) min_length)
    as [Hlt|Hge].
  { rewrite process_row_short in Hrun by done. by apply elem_of_nil in Hrun. }
  assert (text = cleanContent c) as ->.
  { rewrite process_row_usable in Hrun by done. cbv zeta in Hrun.
    pose proof (retry_loop_runs w id (cleanContent c) maxRetries id text) as Hloop.
    destruct (retry_loop zero w id (cleanContent c) maxRetries) as [evs exit].
    simpl in *.
    destruct exit; simpl in Hrun;
      try (apply elem_of_app in Hrun as [Hrun|Hrun];
           [|by apply list_elem_of_singleton in Hrun]);
      by destruct (Hloop Hrun). }
  destruct (cleanContent_shape c). done.
Qed.


(** *** Cost *)

Lemma waiting_app evs evs' :
  waiting (evs ++ evs') = (waiting evs + waiting evs')%N.
Proof.
  induction evs as [|ev evs IH]; simpl; [done|]. rewrite IH. lia.
Qed.

Lemma process_row_cost w db row :
  length (runs (process_row zero w db row).1) <= 3 /\
  length (updates (process_row zero w db row).1) <= 1 /\
  (waiting (process_row zero w db row).1 <= 12000)%N.
Proof.
  destruct row as [id [c|]]; [|simpl; repeat split; lia].
  destruct (Nat.lt_ge_cases (length (cleanContent c)) min_length) as [Hlt|Hge].
  { rewrite process_row_short by done. simpl. repeat split; lia. }
  rewrite process_row_usable by done. cbv zeta.
  destruct (retry_loop_cost w id (cleanContent c)) as [Hruns Hwait].
  destruct (retry_loop_spec zero w id (cleanContent c))
    as (n & _ & _ & _ & _ & _ & Hu & _).
  destruct (retry_loop zero w id (cleanContent c) maxRetries) as [evs exit].
  simpl in *.
  destruct exit; simpl;
    rewrite ?runs_app, ?updates_app, ?waiting_app, ?length_app, ?Hu; simpl;
    repeat split; lia.
Qed.

(** X8.  The cost of a run is bounded by the number of rows it selects: at
    most three model runs and one update per row, and at most twelve
    seconds of waiting per row. *)
Theorem run_cost_is_bounded e w req db :
  let n := length (select_rows (ids req) db) in
  length (runs (effects zero e w req db)) <= 3 * n /\
  length (updates (effects zero e w req db)) <= n /\
  (waiting (effects zero e w req db) <= 12000 * N.of_nat n)%N.
Proof.
  assert (forall rows db0,
    length (runs (process_rows zero w rows db0).1) <= 3 * length rows /\
    length (updates (process_rows zero w rows db0).1) <= length rows /\
    (waiting (process_rows zero w rows db0).1
     <= 12000 * N.of_nat (length rows))%N) as batch.
  { induction rows as [|row rest IH]; intros db0; [simpl; repeat split; lia|].
    simpl. pose proof (process_row_cost w db0 row) as (Hr & Hu & Hw).
    destruct (process_row zero w db0 row) as [evs db1].
    specialize (IH db1) as (IHr & IHu & IHw).
    destruct (process_rows zero w rest db1) as [evs' db2]. simpl in *.
    rewrite runs_app, updates_app, waiting_app, !length_app.
    repeat split; lia. }
  intros n. subst n. specialize (batch (select_rows (ids req) db) db).
  unfold effects, handler.
  repeat (case_match; simpl; try (repeat split; lia)).
  exact batch.
Qed.

(** *** Order *)



(** *** Rows without content, and runs that fail *)

(** X10.  A row whose content is null or the empty string is passed over:
    no session, no model run, no update, and the row stays as it was. *)
Theorem row_without_content_skipped e w req db id r :
  db !! id = Some r -> content r = None \/ content r = Some [] ->
  row_events id (effects zero e w req db) = [] /\
  table_after zero e w req db !! id = Some r.
Proof.
  intros Hr Hc. rewrite <- Hr.
  destruct (handler_row e w req db id)
    as [H | (r' & Hr' & _ & _ & -> & ->)]; [done|].
  assert (r' = r) as -> by congruence.
  by destruct Hc as [-> | ->].
Qed.


(** *** Runs one after the other *)

Lemma not_started e w req db :
  started e w req = false -> table_after zero e w req db = db.
Proof.
  unfold started, table_after, handler, configured.
  destruct (preflight req); [done|].
  destruct (truthy (SUPA_URL e)), (truthy (SUPA_ANON_KEY e)); try done.
  destruct (truthy (authorization req)); [|done].
  by destruct (select_error w).
Qed.

(** The state of a row after a run, from its state before. *)
Lemma table_after_lookup e w req db id :
  table_after zero e w req db !! id =
    match db !! id with
    | Some r =>
        match embedding r with
        | None =>
            if started e w req && bool_decide (id ∈ ids req) then
              (process_row zero w db (id, content r)).2 !! id
            else Some r
        | Some _ => Some r
        end
    | None => None
    end.
Proof.
  destruct (started e w req) eqn:Hst.
  2: { rewrite not_started by done. simpl.
       destruct (db !! id) as [r|]; [|done]. by destruct (embedding r). }
  unfold started in Hst.
  apply andb_true_iff in Hst as [[[Hp Hc]%andb_true_iff Ha]%andb_true_iff Hs].
  apply negb_true_iff in Hp, Hs. simpl.
  destruct (db !! id) as [r|] eqn:Hr.
  - destruct (embedding r) as [v|] eqn:He.
    + rewrite <- Hr. apply handler_not_selected, select_rows_skips.
      right. by rewrite Hr; simpl; rewrite He.
    + case_bool_decide as Hid.
      * apply handler_selected; try done. apply elem_of_select_rows. eauto.
      * rewrite <- Hr. apply handler_not_selected, select_rows_skips. by left.
  - rewrite <- Hr. apply handler_not_selected, select_rows_skips.
    right. by rewrite Hr.
Qed.

(** What a run does to a row depends on that row's state only. *)
Lemma handler_local e w req db db' id :
  db !! id = db' !! id ->
  table_after zero e w req db !! id = table_after zero e w req db' !! id.
Proof.
  intros Hrow. rewrite !table_after_lookup, <- Hrow.
  destruct (db !! id) as [r|] eqn:Hr; [|done]. destruct (embedding r); [done|].
  destruct (started e w req && bool_decide (id ∈ ids req)); [|done].
  apply process_row_same. simpl. congruence.
Qed.

Lemma handler_unlisted e w req db id :
  id ∉ ids req -> table_after zero e w req db !! id = db !! id.
Proof.
  intros Hid. apply handler_not_selected, select_rows_skips. by left.
Qed.

(** X12.  Two runs over disjoint sets of ids commute: whichever comes
    first, the table is the same afterwards. *)
Theorem disjoint_runs_commute e1 w1 req1 e2 w2 req2 db :
  (forall id, id ∈ ids req1 -> id ∉ ids req2) ->
  table_after zero e2 w2 req2 (table_after zero e1 w1 req1 db)
  = table_after zero e1 w1 req1 (table_after zero e2 w2 req2 db).
Proof.
  intros Hdisjoint. apply map_eq. intros id.
  destruct (decide (id ∈ ids req1)) as [H1|H1].
  - rewrite handler_unlisted by auto.
    symmetry. apply handler_local. by apply handler_unlisted; auto.
  - rewrite (handler_unlisted e1 w1 req1) by done.
    apply handler_local. by apply handler_unlisted.
Qed.

End More.

(** *** The properties at work *)

Lemma model_input_is_clean_witness :
  exists r c,
    pending_table !! 1%Z = Some r /\ 1%Z ∈ ids batch_request /\
    embedding r = None /\ content r = Some c /\ fox = cleanContent c /\
    min_length <= length fox <= max_length /\ Forall printable fox.
Proof.
  apply (model_input_is_clean 0%Z env_set steady batch_request pending_table
           1%Z fox).
  vm_compute. repeat constructor.
Defined.


(** The condition is needed.  An inference runtime that fails its first
    three calls, whichever row they are for, answers the two orders
    differently: the row that comes first is the one left without an
    embedding. *)
Example order_dependent_environment :
  embedding <$> (process_rows 0%Z fails_first_row
     [(1%Z, Some fox); (2%Z, Some dog)] two_rows).2 !! 1%Z = Some None /\
  embedding <$> (process_rows 0%Z fails_second_row
     [(2%Z, Some dog); (1%Z, Some fox)] two_rows).2 !! 1%Z
    = Some (Some (normalize_output 0%Z native_output)).
Proof. split; vm_compute; reflexivity. Qed.

Lemma row_without_content_skipped_witness :
  row_events 1 (effects 0%Z env_set steady batch_request blank_table) = [] /\
  table_after 0%Z env_set steady batch_request blank_table !! 1%Z =
    Some {| content := Some []; embedding := None |}.
Proof.
  apply (row_without_content_skipped 0%Z env_set steady batch_request
           blank_table 1%Z).
  - vm_compute. reflexivity.
  - right. reflexivity.
Defined.


Lemma disjoint_runs_commute_witness :
  table_after 0%Z env_set steady second_request
    (table_after 0%Z env_set third_time_lucky batch_request two_rows)
  = table_after 0%Z env_set third_time_lucky batch_request
      (table_after 0%Z env_set steady second_request two_rows).
Proof.
  apply (disjoint_runs_commute 0%Z env_set third_time_lucky batch_request
           env_set steady second_request two_rows).
  intros id Hin. apply (bool_decide_unpack _).
  apply list_elem_of_singleton in Hin as ->. vm_compute. exact I.
Defined.

End EmbedMore.

(** ** Properties of the endpoint without retries *)

Module EmbedOnceProps.
Import Js Sanitizer Http JsFacts SanitizerFacts SanitizerMore Sample Cases.

Lemma cleanContent_once_stages content :
  EmbedOnce.cleanContent content =
    let s := trim (normalize_line_endings content) in
    if 4000 <? length s then firstn 4000 s else s.
Proof. reflexivity. Qed.

Lemma normalize_line_endings_no_CR s :
  Forall (fun c => c <> CR) (normalize_line_endings s).
Proof.
  apply (replace_all_Forall (fun _ => True)); [| |by apply Forall_forall].
  - intros [|c t] n rep; simpl; [done|].
    destruct (c =? CR)%N; intros [= <- <-]. by repeat constructor.
  - intros c t _. simpl. by destruct (N.eqb_spec c CR).
Qed.

Lemma normalize_line_endings_length s :
  length (normalize_line_endings s) <= length s.
Proof.
  unfold normalize_line_endings.
  etransitivity; [apply replace_length|etransitivity; [apply replace_length|]];
    auto using re_cr_bounded, re_crlf_bounded.
  all: intros [|c [|d t]] n rep; simpl; try discriminate;
       repeat case_match; intros [= <- <-]; simpl; lia.
Qed.

Lemma trim_normalized_no_CR s :
  Forall (fun c => c <> CR) (trim (normalize_line_endings s)).
Proof.
  pose proof (normalize_line_endings_no_CR s) as H.
  destruct (trim_infix (normalize_line_endings s)) as (pre & post & E).
  rewrite E in H. apply Forall_app in H as [_ H].
  by apply Forall_app in H as [H _].
Qed.

Lemma normalize_line_endings_id s :
  Forall (fun c => c <> CR) s -> normalize_line_endings s = s.
Proof.
  intros H. unfold normalize_line_endings.
  assert (replace re_crlf s = s) as ->.
  { apply replace_never_matching. intros pre [|c [|d u]] ->; try done.
    simpl. apply Forall_app in H as [_ H]. inversion H; subst.
    by destruct (N.eqb_spec c CR). }
  apply replace_never_matching. intros pre [|c u] ->; [done|].
  simpl. apply Forall_app in H as [_ H]. inversion H; subst.
  by destruct (N.eqb_spec c CR).
Qed.

(** X13.  The lighter cleaning of the endpoint without retries yields a
    text without carriage return, at most 4000 code units long, never
    longer than the content and never beginning with white space. *)
Theorem cleanContent_once content :
  Forall (fun c => c <> CR) (EmbedOnce.cleanContent content) /\
  length (EmbedOnce.cleanContent content) <= 4000 /\
  length (EmbedOnce.cleanContent content) <= length content /\
  (forall c, head (EmbedOnce.cleanContent content) = Some c ->
             is_space c = false).
Proof.
  rewrite cleanContent_once_stages. cbv zeta.
  set (s := normalize_line_endings content).
  pose proof (trim_normalized_no_CR content) as Hcr. fold s in Hcr.
  assert (length (trim s) <= length content) as Hlen.
  { etransitivity; [apply trim_length|apply normalize_line_endings_length]. }
  destruct (Nat.ltb_spec 4000 (length (trim s))) as [Hlong|Hshort].
  - repeat split.
    + by apply Forall_take.
    + rewrite length_firstn. lia.
    + rewrite length_firstn. lia.
    + intros c. destruct (trim s) as [|x t] eqn:E; [done|]. simpl.
      intros [= <-]. apply (trim_head s). by rewrite E.
  - repeat split; try done. apply trim_head.
Qed.

(** X14.  The lighter cleaning leaves a text as it is exactly when the text
    has no carriage return, no white space at either end and at most 4000
    code units. *)
Theorem cleanContent_once_fixed s :
  EmbedOnce.cleanContent s = s <->
  Forall (fun c => c <> CR) s /\
  (forall c, head s = Some c -> is_space c = false) /\
  (forall c, last s = Some c -> is_space c = false) /\
  length s <= 4000.
Proof.
  rewrite cleanContent_once_stages. cbv zeta. split.
  - intros E.
    pose proof (trim_length (normalize_line_endings s)) as Ht.
    pose proof (normalize_line_endings_length s) as Hn.
    revert E.
    destruct (Nat.ltb_spec 4000 (length (trim (normalize_line_endings s))))
      as [Hlong|Hshort]; intros E.
    { apply (f_equal length) in E. rewrite length_firstn in E. lia. }
    rewrite <- E. repeat split.
    + apply trim_normalized_no_CR.
    + apply trim_head.
    + apply trim_last.
    + lia.
  - intros (Hcr & Hh & Hl & Hlen).
    rewrite normalize_line_endings_id, trim_trimmed by done.
    by destruct (Nat.ltb_spec 4000 (length s)); [lia|].
Qed.

Section Props.
Context {num : Type}.
Implicit Types (w : EmbedOnce.world num).
Implicit Types (db : gmap Z (Embed.section_row num)).

(** An update is preceded by the run that returned its value. *)
Lemma process_rows_updates w rows db id v :
  EmbedOnce.EvUpdate id v ∈ (EmbedOnce.process_rows w rows db).1 ->
  exists c, (id, Some c) ∈ rows /\
    EmbedOnce.run w id (EmbedOnce.cleanContent c) = EmbedOnce.RunReturns v.
Proof.
  revert db. induction rows as [|[k c] rest IH]; intros db; simpl.
  { by intros ?%elem_of_nil. }
  destruct (EmbedOnce.process_row w db (k, c)) as [evs db1] eqn:E.
  specialize (IH db1).
  destruct (EmbedOnce.process_rows w rest db1) as [evs' db2]. simpl in *.
  intros [Hin|Hin]%elem_of_app.
  - unfold EmbedOnce.process_row in E. simpl in E.
    destruct c as [[|c0 c]|]; simplify_eq; try by apply elem_of_nil in Hin.
    destruct (length (EmbedOnce.cleanContent (c0 :: c)) <? 10);
      simplify_eq; [by apply elem_of_nil in Hin|].
    destruct (EmbedOnce.run w k (EmbedOnce.cleanContent (c0 :: c))) eqn:Hrun;
      simplify_eq.
    + apply list_elem_of_singleton in Hin. done.
    + apply elem_of_cons in Hin as [Hin|Hin]; [done|].
      apply list_elem_of_singleton in Hin as [= -> ->].
      exists (c0 :: c). split; [apply list_elem_of_here | done].
  - destruct (IH Hin) as (c' & Hc' & Hrun). exists c'.
    split; [by apply list_elem_of_further | done].
Qed.

(** X15.  The endpoint without retries writes what the model returned,
    unchanged, and only for a listed row that had no embedding; so when the
    model returns 384 entries, as gte-small does, every value written has
    the width of the embedding column. *)
Theorem once_writes_model_output e w req db id v :
  EmbedOnce.EvUpdate id v ∈ (EmbedOnce.handler e w req db).1.2 ->
  (exists r c, db !! id = Some r /\ id ∈ Embed.ids req /\
     Embed.embedding r = None /\ Embed.content r = Some c /\
     EmbedOnce.run w id (EmbedOnce.cleanContent c) = EmbedOnce.RunReturns v) /\
  ((forall k text output,
      EmbedOnce.run w k text = EmbedOnce.RunReturns output ->
      length output = 384) ->
   length v = Schema.embedding_dimensions).
Proof.
  intros Hin.
  assert (exists c, (id, Some c) ∈ Embed.select_rows (Embed.ids req) db /\
    EmbedOnce.run w id (EmbedOnce.cleanContent c) = EmbedOnce.RunReturns v)
    as (c & Hc & Hrun).
  { unfold EmbedOnce.handler in Hin.
    destruct (Embed.preflight req); [by apply elem_of_nil in Hin|].
    destruct (negb (truthy (SUPA_URL e)) || negb (truthy (SUPA_ANON_KEY e)));
      [by apply elem_of_nil in Hin|].
    destruct (negb (truthy (Embed.authorization req)));
      [by apply elem_of_nil in Hin|].
    destruct (EmbedOnce.select_error w).
    { simpl in Hin.
      repeat (apply elem_of_cons in Hin as [Hin|Hin]; [discriminate|]).
      by apply elem_of_nil in Hin. }
    destruct (EmbedOnce.session_error w).
    { simpl in Hin.
      repeat (apply elem_of_cons in Hin as [Hin|Hin]; [discriminate|]).
      by apply elem_of_nil in Hin. }
    apply (process_rows_updates w (Embed.select_rows (Embed.ids req) db) db).
    destruct (EmbedOnce.process_rows w
                (Embed.select_rows (Embed.ids req) db) db) as [evs db'].
    simpl in *.
    by do 3 (apply elem_of_cons in Hin as [Hin|Hin]; [discriminate|]). }
  apply EmbedProps.elem_of_select_rows in Hc as (r & Hr & Hid & He & Hc).
  split; [exists r, c; done|]. intros Hwidth. by apply Hwidth in Hrun.
Qed.

End Props.

Lemma once_writes_model_output_witness :
  (exists r c,
     pending_table !! 1%Z = Some r /\ 1%Z ∈ Embed.ids batch_request /\
     Embed.embedding r = None /\ Embed.content r = Some c /\
     EmbedOnce.run once_steady 1%Z (EmbedOnce.cleanContent c)
       = EmbedOnce.RunReturns native_output) /\
  length native_output = Schema.embedding_dimensions.
Proof.
  destruct (once_writes_model_output env_set once_steady batch_request
              pending_table 1%Z native_output) as [found width].
  { vm_compute. repeat constructor. }
  split; [exact found|]. apply width.
  intros k text output [= <-]. reflexivity.
Defined.

End EmbedOnceProps.

(** ** Properties of the processing endpoint and of the upload path *)

Module ProcessProps.
Import Js Http Process Upload.

(** X16.  The processing endpoint inserts at most once, and only the
    sections of the file stored for the requested document; it answers 204
    exactly when that insert was sent and did not fail. *)
Theorem process_inserts_once e w req :
  length (inserts (handler e w req).2) <= 1 /\
  (forall id secs, (id, secs) ∈ inserts (handler e w req).2 ->
     id = document_id req /\
     preflight req = false /\ configured e = true /\
     truthy (authorization req) = true /\
     exists path file, path <> EmptyString /\
       document_path w id = Some path /\ download w path = Some file /\
       secs = processMarkdown w file) /\
  (status (handler e w req).1 = 204%Z <->
     inserts (handler e w req).2 <> [] /\ insert_error w = false).
Proof.
  unfold handler, configured.
  destruct (preflight req).
  { simpl. split; [lia|]. split; [by intros ?? ?%elem_of_nil|].
    split; [done|]. by intros [? _]. }
  destruct (truthy (SUPA_URL e)), (truthy (SUPA_ANON_KEY e)); simpl;
    try (split; [lia|]; split; [by intros ?? ?%elem_of_nil|];
         split; [done|]; by intros [? _]).
  destruct (truthy (authorization req)); simpl;
    try (split; [lia|]; split; [by intros ?? ?%elem_of_nil|];
         split; [done|]; by intros [? _]).
  destruct (document_path w (document_id req)) as [[|a path]|] eqn:Hpath;
    simpl;
    try (split; [lia|]; split; [by intros ?? ?%elem_of_nil|];
         split; [done|]; by intros [? _]).
  destruct (download w (String a path)) as [file|] eqn:Hfile; simpl;
    try (split; [lia|]; split; [by intros ?? ?%elem_of_nil|];
         split; [done|]; by intros [? _]).
  assert (forall id secs,
    (id, secs) ∈ [(document_id req, processMarkdown w file)] ->
    id = document_id req /\
    exists path' file', path' <> EmptyString /\
      document_path w id = Some path' /\ download w path' = Some file' /\
      secs = processMarkdown w file') as Hin.
  { intros id secs [= -> ->]%list_elem_of_singleton. split; [done|].
    by exists (String a path), file. }
  destruct (insert_error w); simpl.
  - split; [done|]. split; [|split; [done|by intros [_ ?]]].
    intros id secs [-> ?]%Hin. done.
  - split; [done|]. split; [|done].
    intros id secs [-> ?]%Hin. done.
Qed.

End ProcessProps.

Module UploadProps.
Import Js Http Schema Upload Sample Cases.

Lemma handle_storage_update_files token new db db' :
  other_bucket new = false ->
  handle_storage_update token new db = Returned db' ->
  exists n o,
    nth_error (path_tokens new) 1 = Some n /\ owner new = Some o /\
    db' =
      {| documents := documents db ++
           [{| id := documents_identity db; name := n;
               storage_object_id := object_id new; created_by := o |}];
         documents_identity := (documents_identity db + 1)%Z;
         http_queue := http_queue db ++
           [{| url := String.append supabase_url "/functions/v1/process";
               headers := [("Content-Type", "application/json");
                           ("Authorization",
                            String.append "Bearer " token)]%string;
               body_document_id := documents_identity db |}];
         users := users db;
         Schema.session := Schema.session db |}.
Proof.
  unfold handle_storage_update, insert_document. intros ->.
  destruct (negb (admitted (Schema.session db) (owner new))); [done|].
  destruct (nth_error (path_tokens new) 1) as [n|], (owner new) as [o|];
    try done.
  destruct (bool_decide (o ∈ users db)); [|done].
  intros [= <-]. by exists n, o.
Qed.

Lemma handle_storage_update_other token new db db' :
  other_bucket new = true ->
  handle_storage_update token new db = Returned db' -> db' = db.
Proof. unfold handle_storage_update. intros ->. congruence. Qed.

Lemma files_bucket new :
  bucket_id new = Some "files"%string -> other_bucket new = false.
Proof. unfold other_bucket. by intros ->. Qed.

(** X17.  The trigger keeps the documents table and the request queue
    consistent: identifiers stay below the next identity value and
    distinct, every queued request names a stored document, and rows and
    requests already there are kept in place. *)
Theorem trigger_keeps_consistency token new db db' :
  consistent db ->
  handle_storage_update token new db = Returned db' ->
  consistent db' /\
  documents db `prefix_of` documents db' /\
  http_queue db `prefix_of` http_queue db' /\
  (documents_identity db <= documents_identity db')%Z.
Proof.
  intros [Hbelow Hdistinct Hqueue] Hrun.
  destruct (other_bucket new) eqn:Hb.
  { apply handle_storage_update_other in Hrun as ->; [|done].
    repeat split; try done; lia. }
  apply handle_storage_update_files in Hrun as (n & o & _ & _ & ->); [|done].
  simpl. split; [split; simpl|].
  - apply Forall_app_2; [|repeat constructor; simpl; lia].
    eapply Forall_impl; [exact Hbelow|]. simpl. lia.
  - rewrite fmap_app. apply NoDup_app. split; [done|]. split.
    + intros x Hx [->|[]%elem_of_nil]%elem_of_cons.
      apply list_elem_of_fmap in Hx as (d & Hd & Hin).
      rewrite Forall_forall in Hbelow. apply Hbelow in Hin. simpl in Hd. lia.
    + simpl. apply NoDup_singleton.
  - rewrite fmap_app. apply Forall_app_2.
    + eapply Forall_impl; [exact Hqueue|]. intros p Hp.
      apply elem_of_app. by left.
    + repeat constructor. simpl. apply elem_of_app. right.
      apply list_elem_of_here.
  - split; [by eexists|]. split; [by eexists|]. lia.
Qed.

Lemma join_object (d : document) (objects : list (string * string)) path :
  NoDup objects.*1 ->
  (storage_object_id d, path) ∈ objects ->
  (o ← objects;
   if String.eqb o.1 (storage_object_id d) then [(d, o.2)] else []) =
  [(d, path)].
Proof.
  induction objects as [|[k v] rest IH]; simpl.
  { by intros _ ?%elem_of_nil. }
  intros [Hk Hrest]%NoDup_cons Hin.
  assert (forall rest' : list (string * string),
    storage_object_id d ∉ rest'.*1 ->
    (o ← rest';
     if String.eqb o.1 (storage_object_id d) then [(d, o.2)] else []) = [])
    as Hnone.
  { clear. induction rest' as [|[k v] rest' IH]; simpl; [done|].
    intros Hk. rewrite not_elem_of_cons in Hk. destruct Hk as [Hk Hrest].
    destruct (String.eqb_spec k (storage_object_id d)); [done|].
    simpl. by apply IH. }
  apply elem_of_cons in Hin as [[= <- <-]|Hin].
  - rewrite String.eqb_refl. simpl. by rewrite Hnone.
  - destruct (String.eqb_spec k (storage_object_id d)) as [->|_].
    + destruct Hk. apply list_elem_of_fmap. by exists (storage_object_id d, path).
    + simpl. by apply IH.
Qed.

Lemma filter_none {A} (P : A -> Prop) `{!forall x, Decision (P x)} l :
  Forall (fun x => ~ P x) l -> filter P l = [].
Proof. induction 1; [done|]. by rewrite filter_cons_False. Qed.

Lemma filter_join_below docs (objects : list (string * string)) k :
  Forall (fun d => (id d < k)%Z) docs ->
  filter (fun row : document * string => id row.1 = k)
    (documents_with_storage_path docs objects) = [].
Proof.
  intros Hbelow. apply filter_none, Forall_forall. intros [d p] Hin.
  unfold documents_with_storage_path in Hin.
  apply list_elem_of_bind in Hin as (d' & Hin & Hd').
  apply list_elem_of_bind in Hin as (o & Hin & _).
  destruct (String.eqb o.1 (storage_object_id d'));
    [|by apply elem_of_nil in Hin].
  apply list_elem_of_singleton in Hin as [= -> ->].
  rewrite Forall_forall in Hbelow. apply Hbelow in Hd'. simpl. lia.
Qed.

Lemma view_snoc docs d (objects : list (string * string)) :
  documents_with_storage_path (docs ++ [d]) objects =
  documents_with_storage_path docs objects ++
    (o ← objects;
     if String.eqb o.1 (storage_object_id d) then [(d, o.2)] else []).
Proof.
  unfold documents_with_storage_path. rewrite bind_app. simpl.
  by rewrite app_nil_r.
Qed.

(** X18.  An upload into the files bucket is processed: the request the
    trigger queues passes the guards of the processing endpoint, the
    document it names is found in the view with the path of the uploaded
    object, and with the file downloaded and the insert accepted the
    endpoint stores the sections of that file for that document and
    answers 204. *)
Theorem upload_is_processed token new db db' objects path e w file :
  consistent db ->
  bucket_id new = Some "files"%string ->
  handle_storage_update token new db = Returned db' ->
  NoDup objects.*1 ->
  (object_id new, path) ∈ objects ->
  path <> EmptyString ->
  configured e = true ->
  Process.document_path w = find_document (documents db') objects ->
  Process.download w path = Some file ->
  Process.insert_error w = false ->
  exists p, last (http_queue db') = Some p /\
    find_document (documents db') objects (body_document_id p) = Some path /\
    Process.handler e w (delivered p) =
      (no_content,
       [Process.EvCreateClient;
        Process.EvSelectDocument (body_document_id p);
        Process.EvDownload path;
        Process.EvInsertSections (body_document_id p)
          (Process.processMarkdown w file)]).
Proof.
  intros [Hbelow _ _] Hb Hrun Hobjects Hin Hpath He Hw Hfile Hins.
  apply handle_storage_update_files in Hrun as (n & o & _ & _ & ->);
    [|by apply files_bucket].
  simpl in *. eexists. split; [apply last_snoc|]. simpl.
  set (d := {| id := documents_identity db; name := n;
               storage_object_id := object_id new; created_by := o |}) in *.
  assert (find_document (documents db ++ [d]) objects (documents_identity db)
          = Some path) as Hfind.
  { unfold find_document.
    rewrite view_snoc, filter_app, filter_join_below by done.
    rewrite (join_object d objects path) by done.
    by rewrite filter_cons_True by done. }
  split; [done|].
  assert (Process.document_path w (documents_identity db) = Some path)
    as Hdoc by (by rewrite Hw).
  unfold Process.handler, Process.preflight, delivered. simpl.
  unfold configured in He. apply andb_prop in He as [-> ->]. simpl.
  rewrite Hdoc. destruct path as [|a path]; [done|]. simpl.
  by rewrite Hfile, Hins.
Qed.

(** *** The properties at work *)

Lemma empty_database_consistent : consistent empty_database.
Proof. split; simpl; constructor. Qed.

Lemma trigger_keeps_consistency_witness :
  handle_storage_update "service-token" file_upload empty_database
    = Returned uploaded_database /\
  consistent uploaded_database /\
  documents empty_database `prefix_of` documents uploaded_database /\
  http_queue empty_database `prefix_of` http_queue uploaded_database /\
  (documents_identity empty_database <= documents_identity uploaded_database)%Z.
Proof.
  split; [reflexivity|].
  apply (trigger_keeps_consistency "service-token" file_upload empty_database
           uploaded_database).
  - exact empty_database_consistent.
  - reflexivity.
Defined.

Lemma upload_is_processed_witness :
  exists p, last (http_queue uploaded_database) = Some p /\
    find_document (documents uploaded_database) stored_objects
      (body_document_id p) = Some "u/notes.md"%string /\
    Process.handler env_set stored_world (delivered p) =
      (no_content,
       [Process.EvCreateClient;
        Process.EvSelectDocument (body_document_id p);
        Process.EvDownload "u/notes.md";
        Process.EvInsertSections (body_document_id p) [fox]]).
Proof.
  apply (upload_is_processed "service-token" file_upload empty_database
           uploaded_database stored_objects "u/notes.md" env_set
           stored_world fox).
  - exact empty_database_consistent.
  - reflexivity.
  - reflexivity.
  - apply (bool_decide_unpack _). vm_compute. exact I.
  - apply (bool_decide_unpack _). vm_compute. exact I.
  - discriminate.
  - reflexivity.
  - reflexivity.
  - reflexivity.
  - reflexivity.
Defined.

End UploadProps.

(** ** Properties of the pipeline worker *)

Module WorkerProps.
Import Worker.

Section Props.
Context {value : Type} (spread : value -> value) (truthy : value -> bool).
Implicit Types (s : state value) (a : action value).
Implicit Types (acts : list (action value)) (evs : list (event value)).

Lemma exec_snoc acts a s :
  exec spread truthy (acts ++ [a]) s
  = step spread truthy (exec spread truthy acts s) a.
Proof. unfold exec. by rewrite foldl_app. Qed.

Lemma step_trace s a :
  trace (step spread truthy s a) = trace s ++ added spread truthy s a.
Proof.
  destruct a as [[args|id args]|k r|k data]; simpl.
  - by rewrite app_nil_r.
  - destruct (uninitialised truthy s); simpl; by rewrite ?app_nil_r.
  - destruct (pending s !! k) as [[]|], r; simpl; by rewrite ?app_nil_r.
  - destruct (pending s !! k) as [[]|]; simpl; by rewrite ?app_nil_r.
Qed.

Lemma pipelines_snoc acts a s :
  pipelines spread truthy s (acts ++ [a])
  = pipelines spread truthy s acts ++ stored (exec spread truthy acts s) a.
Proof.
  revert s. induction acts as [|b acts IH]; intros s; simpl.
  - by rewrite app_nil_r.
  - by rewrite IH, app_assoc.
Qed.

Lemma elem_of_insert_task (l : list (task value)) k t t' :
  t ∈ <[k := t']> l -> t = t' \/ t ∈ l.
Proof.
  revert k. induction l as [|x l IH]; intros [|k]; simpl; auto.
  - intros [->|H]%elem_of_cons; [by left|].
    right. by apply list_elem_of_further.
  - intros [->|H]%elem_of_cons; [right; apply list_elem_of_here|].
    destruct (IH k H) as [->|Hl]; [by left|].
    right. by apply list_elem_of_further.
Qed.

Lemma elem_of_delete_task (l : list (task value)) k t :
  t ∈ delete k l -> t ∈ l.
Proof.
  revert k. induction l as [|x l IH]; intros [|k]; simpl; auto.
  - apply list_elem_of_further.
  - intros [->|H]%elem_of_cons; [apply list_elem_of_here|].
    apply list_elem_of_further. by apply (IH k).
Qed.

(** A step keeps the pipeline usable, provided what it stores is truthy. *)
Lemma step_initialised s a :
  Forall (fun v => truthy v = true) (stored s a) ->
  initialised truthy s -> initialised truthy (step spread truthy s a).
Proof.
  unfold initialised. intros Hv Hs.
  destruct a as [[args|id args]|k r|k data]; simpl.
  - destruct (transformers s); rewrite elem_of_app, list_elem_of_singleton;
      intros [[H|H]|H]; auto; done.
  - destruct (uninitialised truthy s) eqn:E; unfold uninitialised in *; simpl.
    + rewrite elem_of_app, list_elem_of_singleton.
      intros [H|[H|H]]; try done; assert (true = false) by auto; done.
    + intros _. exact E.
  - simpl in Hv.
    destruct (pending s !! k) as [t|] eqn:Ek; [|by destruct r].
    destruct t, r; unfold uninitialised in *; simpl; try done;
      try (intros _; apply Forall_inv in Hv; by rewrite Hv);
      try (intros _; apply Hs; left; by eapply list_elem_of_lookup_2).
    all: intros [H|H];
      [ first [ apply elem_of_insert_task in H as [H|H]; [discriminate|]
              | apply elem_of_delete_task in H ]; auto
      | rewrite ?app_nil_r in H;
        try (apply elem_of_app in H as [H|H];
             [|by apply list_elem_of_singleton in H]); auto ].
  - destruct (pending s !! k) as [[]|]; simpl; try done.
    rewrite elem_of_app, list_elem_of_singleton.
    intros [H|[H|H]]; [auto | auto | done].
Qed.

Lemma ordered_snoc evs ev :
  ordered evs ->
  (forall message, ev = Throw message -> Post Ready ∉ evs) ->
  ordered (evs ++ [ev]).
Proof.
  intros Ho Hev pre post message E Hin.
  destruct post as [|p post _] using rev_ind.
  { by apply elem_of_nil in Hin. }
  rewrite app_comm_cons, app_assoc in E.
  apply app_inj_tail in E as [E ->].
  apply elem_of_app in Hin as [Hin|Hin].
  - by eapply Ho.
  - apply list_elem_of_singleton in Hin as <-.
    apply (Hev message eq_refl). rewrite E.
    apply elem_of_app. right. apply list_elem_of_here.
Qed.

Lemma added_cases s a :
  added spread truthy s a = [] \/ exists ev, added spread truthy s a = [ev] /\
    (forall message, ev = Throw message -> uninitialised truthy s = true).
Proof.
  destruct a as [[args|id args]|k r|k data]; simpl; auto.
  - destruct (uninitialised truthy s) eqn:E; [|auto]. right. eauto.
  - destruct (pending s !! k) as [[]|], r; auto; right;
      eexists; (split; [done|]); done.
  - destruct (pending s !! k) as [[]|]; auto. right.
    eexists. split; done.
Qed.

(** X19.  Once the worker has posted [ready] it never again refuses a run,
    provided every pipeline the library gives is truthy: in every such
    course of events, the error of line 119 does not follow a [ready]
    message. *)
Theorem no_error_after_ready acts pre post message :
  Forall (fun v => truthy v = true) (pipelines spread truthy start acts) ->
  trace (exec spread truthy acts start) = pre ++ Post Ready :: post ->
  Throw message ∉ post.
Proof.
  intros Hv.
  assert (initialised truthy (exec spread truthy acts start) /\
          ordered (trace (exec spread truthy acts start))) as [_ Ho].
  { clear pre post message.
    induction acts as [|a acts IH] using rev_ind.
    { split.
      - intros [H|H]; by apply elem_of_nil in H.
      - intros [|? ?] ? ? ?; done. }
    rewrite pipelines_snoc in Hv. apply Forall_app in Hv as [Hacts Ha].
    destruct (IH Hacts) as [Hi Ho].
    rewrite exec_snoc. split; [by apply step_initialised|].
    rewrite step_trace.
    destruct (added_cases (exec spread truthy acts start) a)
      as [-> | (ev & -> & Hev)].
    { by rewrite app_nil_r. }
    apply ordered_snoc; [done|].
    intros message Hm Hready. apply Hev in Hm.
    rewrite Hi in Hm; [done | by right]. }
  intros E. by eapply Ho.
Qed.

(** *** Results and requests *)

Lemma requested_app (acts acts' : list (action value)) :
  requested (acts ++ acts') = requested acts ++ requested acts'.
Proof. apply omap_app. Qed.

Lemma answered_app evs evs' :
  answered (evs ++ evs') = answered evs ++ answered evs'.
Proof. apply omap_app. Qed.

Lemma awaited_app (l l' : list (task value)) :
  awaited (l ++ l') = awaited l ++ awaited l'.
Proof. apply omap_app. Qed.

Lemma awaited_insert (l : list (task value)) k t t' :
  l !! k = Some t -> awaited [t] = [] -> awaited [t'] = [] ->
  awaited (<[k := t']> l) = awaited l.
Proof.
  revert k. induction l as [|x l IH]; intros [|k]; simpl; try done.
  - intros [= ->] Ht Ht'. unfold awaited in *. simpl in *.
    by destruct t, t'.
  - intros Hk Ht Ht'. unfold awaited in *. simpl.
    by rewrite (IH k Hk Ht Ht').
Qed.

Lemma awaited_delete (l : list (task value)) k t :
  l !! k = Some t -> awaited l ≡ₚ awaited [t] ++ awaited (delete k l).
Proof.
  intros Hk. unfold awaited. rewrite <- omap_app. f_equiv.
  by apply delete_Permutation.
Qed.

Local Arguments answered : simpl never.
Local Arguments awaited : simpl never.
Local Arguments requested : simpl never.

Lemma step_accounted acts s a :
  accounted acts s -> accounted (acts ++ [a]) (step spread truthy s a).
Proof.
  unfold accounted. rewrite requested_app. intros Hs.
  destruct a as [[args|id args]|k r|k data]; simpl.
  - rewrite awaited_app.
    change (requested [Deliver (Init args)]) with (@nil Z).
    destruct (transformers s);
      [change (awaited [AwaitLoaded args]) with (@nil Z)
      |change (awaited [AwaitImport args]) with (@nil Z)];
      by rewrite !app_nil_r.
  - change (requested [Deliver (Run id args)]) with [id].
    destruct (uninitialised truthy s); simpl.
    + rewrite answered_app. change (answered [Throw _]) with (@nil Z).
      rewrite app_nil_r. by apply submseteq_inserts_r.
    + rewrite awaited_app, app_assoc. by apply (submseteq_skips_r [id]).
  - change (requested [Settle k r]) with (@nil Z). rewrite app_nil_r.
    destruct (pending s !! k) as [t|] eqn:Ek; [|by destruct r].
    pose proof (awaited_delete _ _ _ Ek) as Hd.
    destruct t, r; simpl; rewrite ?app_nil_r; try done;
      try (by rewrite (awaited_insert _ _ _ _ Ek));
      try (etransitivity; [|exact Hs]; rewrite Hd;
           apply submseteq_app; [done|]; by apply submseteq_inserts_l).
    all: rewrite answered_app.
    all: try (change (answered [Fail reason]) with (@nil Z); rewrite app_nil_r;
              etransitivity; [|exact Hs]; rewrite Hd;
              apply submseteq_app; [done|]; by apply submseteq_inserts_l).
    + change (answered [Post Ready]) with (@nil Z).
      rewrite app_nil_r. rewrite Hd in Hs. exact Hs.
    + change (answered [Post (Result id (spread v))]) with [id].
      rewrite Hd in Hs. rewrite <- app_assoc. exact Hs.
  - change (requested [Callback k data]) with (@nil Z). rewrite app_nil_r.
    destruct (pending s !! k) as [[]|]; simpl; try done.
    rewrite answered_app. change (answered [Post (Progress data)]) with (@nil Z).
    by rewrite app_nil_r.
Qed.

Lemma exec_accounted acts : accounted acts (exec spread truthy acts start).
Proof.
  induction acts as [|a acts IH] using rev_ind; [by constructor|].
  rewrite exec_snoc. by apply step_accounted.
Qed.

(** X20.  Results answer requests: in every course of events the
    identifiers of the results posted are among those of the run requests
    delivered, each at most as often as it was requested. *)
Theorem results_answer_requests acts :
  answered (trace (exec spread truthy acts start)) ⊆+ requested acts.
Proof.
  etransitivity; [|apply exec_accounted]. by apply submseteq_inserts_r.
Qed.

(** X21.  Until an init request is delivered the worker posts nothing: it
    stores no pipeline, starts nothing, and throws once for every run
    request. *)
Theorem silent_until_init acts :
  Forall (fun a => initialising a = false) acts ->
  exec spread truthy acts start =
    {| transformers := false; instance := None; pending := [];
       trace := (fun _ => Throw "Pipeline not initialized")
                  <$> requested acts |}.
Proof.
  induction acts as [|a acts IH] using rev_ind; [reflexivity|].
  intros [Hacts Ha]%Forall_app. rewrite exec_snoc, (IH Hacts).
  apply Forall_inv in Ha. rewrite requested_app.
  destruct a as [[args|id args]|k r|k data]; simpl in *; try done.
  - unfold emit. simpl. by rewrite fmap_app.
  - change (requested [Settle k r]) with (@nil Z). rewrite app_nil_r.
    by destruct r.
  - change (requested [Callback k data]) with (@nil Z). by rewrite app_nil_r.
Qed.

End Props.

(** *** The properties at work *)

Lemma no_error_after_ready_witness :
  trace (exec (fun v => v) Cases.nonzero Cases.session start) =
    [Throw "Pipeline not initialized"; Post (Progress 50%Z); Post Ready;
     Post (Result 2%Z 60%Z)] /\
  Throw "Pipeline not initialized" ∉ [Post (Result 2%Z 60%Z)].
Proof.
  split; [reflexivity|].
  apply (no_error_after_ready (fun v => v) Cases.nonzero Cases.session
           [Throw "Pipeline not initialized"; Post (Progress 50%Z)]
           [Post (Result 2%Z 60%Z)] "Pipeline not initialized").
  - repeat constructor.
  - reflexivity.
Defined.

(** The proviso is needed: when the library gives a falsy pipeline the
    worker posts [ready] and refuses the next run all the same. *)
Example falsy_pipeline_is_refused :
  pipelines (fun v => v) Cases.nonzero start Cases.falsy_pipeline = [0%Z] /\
  trace (exec (fun v => v) Cases.nonzero Cases.falsy_pipeline start) =
    [Post Ready; Throw "Pipeline not initialized"].
Proof. split; reflexivity. Qed.

Lemma silent_until_init_witness :
  exec (fun v => v) Cases.nonzero Cases.early_runs start =
    {| transformers := false; instance := None; pending := [];
       trace := [Throw "Pipeline not initialized";
                 Throw "Pipeline not initialized"] |}.
Proof.
  apply (silent_until_init (fun v => v) Cases.nonzero Cases.early_runs).
  repeat constructor.
Defined.

End WorkerProps.
